(** * Thinning sampler of [stochastic.continuous.spatial_point_process]

    A shallow embedding of [SpatialPointProcess] (its constructor, the two
    validated setters, [__str__] and [__repr__],
    [_sample_spatial_point_process] and [sample]) and the properties of the
    rejection loop.

    Numbers are binary64 floats ([PrimFloat.float]: numpy's float64 and
    Python's float, told apart where their arithmetic differs) and
    unbounded integers ([Z], Python's int).  The process-wide random source
    and the standard output are threaded explicitly; an exception ends the
    computation with [Raises], and the [while] loop is run with a fuel
    argument, [Unfinished] meaning that the fuel ran out first. *)

From Stdlib Require Import String Ascii ZArith List Bool Lia Floats.
Import ListNotations.

Local Open Scope Z_scope.

(** ** Python exceptions and outcomes *)

Inductive pyexc : Type :=
| AttributeError
| IndexError
| OverflowError
| TypeError
| UnboundLocalError
| ValueError
| ZeroDivisionError
| OtherError (cls : string).

Inductive outcome (A : Type) : Type :=
| Returns (a : A)
| Raises (e : pyexc)
| Unfinished.

Arguments Returns {A} a.
Arguments Raises {A} e.
Arguments Unfinished {A}.

Definition obind {A B} (o : outcome A) (k : A -> outcome B) : outcome B :=
  match o with
  | Returns a => k a
  | Raises e => Raises e
  | Unfinished => Unfinished
  end.

Fixpoint omap {A B} (f : A -> outcome B) (l : list A) : outcome (list B) :=
  match l with
  | [] => Returns []
  | x :: l' =>
      obind (f x) (fun y => obind (omap f l') (fun ys => Returns (y :: ys)))
  end.

(** ** numpy arrays

    Arrays of rank one and two, as the sampler builds them: a rank-two array
    is the list of its rows.  [npvalue] is what a density or an arithmetic
    expression may evaluate to: a Python float, a numpy float64 scalar or a
    rank-one array. *)

Inductive ndarray (A : Type) : Type :=
| Arr1 (v : list A)
| Arr2 (rows : list (list A)).

Arguments Arr1 {A} v.
Arguments Arr2 {A} rows.

Inductive npvalue : Type :=
| PyFloat (x : float)
| Scalar (x : float)
| Vector (v : list float).

Fixpoint zip_with {A B C} (f : A -> B -> C) (l : list A) (k : list B) : list C :=
  match l, k with
  | x :: l', y :: k' => f x y :: zip_with f l' k'
  | _, _ => []
  end.

Section Arrays.
Context {A : Type}.

Definition ncols (rows : list (list A)) : nat := length (hd [] rows).

(** The columns of a [d x k] array given by its rows. *)
Fixpoint columns_of (k : nat) (rows : list (list A)) : list (list A) :=
  match rows with
  | [] => repeat [] k
  | r :: rows' => zip_with cons r (columns_of k rows')
  end.

Definition columns (rows : list (list A)) : list (list A) :=
  columns_of (ncols rows) rows.

(** [a.T] *)
Definition np_T (a : ndarray A) : ndarray A :=
  match a with
  | Arr1 v => Arr1 v
  | Arr2 rows => Arr2 (columns rows)
  end.

(** [len(a)] *)
Definition np_len (a : ndarray A) : Z :=
  match a with
  | Arr1 v => Z.of_nat (length v)
  | Arr2 rows => Z.of_nat (length rows)
  end.

(** [len(a.shape)] *)
Definition np_ndim (a : ndarray A) : Z :=
  match a with
  | Arr1 _ => 1
  | Arr2 _ => 2
  end.

Definition atleast_2d (a : ndarray A) : list (list A) :=
  match a with
  | Arr1 v => [v]
  | Arr2 rows => rows
  end.

Definition same_length (n : nat) (rows : list (list A)) : bool :=
  forallb (fun r => Nat.eqb (length r) n) rows.

(** [np.vstack((a, b))]: both operands are promoted to rank two and the
    rows are stacked; the row lengths must agree. *)
Definition np_vstack (a b : ndarray A) : outcome (ndarray A) :=
  let rows := atleast_2d a ++ atleast_2d b in
  if same_length (ncols rows) rows then Returns (Arr2 rows)
  else Raises ValueError.

(** [np.hstack((a, b))]: rank-one arrays are concatenated; rank-two arrays
    are joined row by row and must have the same number of rows. *)
Definition np_hstack (a b : ndarray A) : outcome (ndarray A) :=
  match a, b with
  | Arr1 v, Arr1 w => Returns (Arr1 (v ++ w))
  | Arr2 r, Arr2 s =>
      if Nat.eqb (length r) (length s) then Returns (Arr2 (zip_with (@app A) r s))
      else Raises ValueError
  | _, _ => Raises ValueError
  end.

(** The entries of [v] at the positions where [mask] holds. *)
Fixpoint compress (mask : list bool) (v : list A) : list A :=
  match mask, v with
  | b :: mask', x :: v' => if b then x :: compress mask' v' else compress mask' v'
  | _, _ => []
  end.

(** [a[:, mask]] for a boolean array [mask]. *)
Definition take_columns (a : ndarray A) (mask : list bool) : outcome (ndarray A) :=
  match a with
  | Arr1 _ => Raises IndexError
  | Arr2 rows =>
      if Nat.eqb (length mask) (ncols rows) then Returns (Arr2 (map (compress mask) rows))
      else Raises IndexError
  end.

(** [v[:n]] *)
Definition slice_to (n : Z) (v : list A) : list A :=
  if 0 <=? n then firstn (Z.to_nat n) v
  else firstn (Z.to_nat (Z.of_nat (length v) + n)) v.

(** [a[:, :n]] *)
Definition first_columns (a : ndarray A) (n : Z) : outcome (ndarray A) :=
  match a with
  | Arr1 _ => Raises IndexError
  | Arr2 rows => Returns (Arr2 (map (slice_to n) rows))
  end.

End Arrays.

(** Broadcasting of a binary operation over scalars and rank-one arrays. *)
Definition broadcast {B} (f : float -> float -> B) (v w : list float)
  : outcome (list B) :=
  if Nat.eqb (length v) (length w) then Returns (zip_with f v w)
  else match v, w with
       | _, [y] => Returns (map (fun x => f x y) v)
       | [x], _ => Returns (map (f x) w)
       | _, _ => Raises ValueError
       end.

(** [a / b].  Between two Python floats the division is Python's, which
    raises [ZeroDivisionError] on a zero divisor; as soon as one operand is
    a numpy value the division is numpy's, which follows IEEE 754 and
    raises nothing. *)
Definition np_divide (a b : npvalue) : outcome npvalue :=
  match a, b with
  | PyFloat x, PyFloat y =>
      if PrimFloat.is_zero y then Raises ZeroDivisionError
      else Returns (PyFloat (PrimFloat.div x y))
  | PyFloat x, Scalar y | Scalar x, PyFloat y | Scalar x, Scalar y =>
      Returns (Scalar (PrimFloat.div x y))
  | PyFloat x, Vector w | Scalar x, Vector w =>
      Returns (Vector (map (PrimFloat.div x) w))
  | Vector v, PyFloat y | Vector v, Scalar y =>
      Returns (Vector (map (fun x => PrimFloat.div x y) v))
  | Vector v, Vector w => obind (broadcast PrimFloat.div v w) (fun r => Returns (Vector r))
  end.

(** [-a] *)
Definition np_negative (a : npvalue) : npvalue :=
  match a with
  | PyFloat x => PyFloat (PrimFloat.opp x)
  | Scalar x => Scalar (PrimFloat.opp x)
  | Vector v => Vector (map PrimFloat.opp v)
  end.

(** [U < c] for a rank-one array [U]. *)
Definition np_less (U : list float) (c : npvalue) : outcome (list bool) :=
  match c with
  | PyFloat y | Scalar y => Returns (map (fun u => PrimFloat.ltb u y) U)
  | Vector w => broadcast PrimFloat.ltb U w
  end.

(** ** Weight arrays of any rank: the shape and the entries in row-major order *)

Record weights : Type := { shape : list nat; data : list float }.

Definition well_formed (w : weights) : Prop :=
  length (data w) = fold_right Nat.mul 1%nat (shape w).

(** One step of numpy's [maximum] reduction, the accumulator first: a NaN
    accumulator stays, otherwise the new entry replaces it unless it is
    strictly smaller (the x86 [maxsd] that numpy uses returns its second
    operand when the two compare equal, signed zeros included, or when the
    second is a NaN). *)
Definition np_maximum (a b : float) : float :=
  if PrimFloat.is_nan a || PrimFloat.ltb b a then a else b.

(** [np.amax] over the entries of an array-like. *)
Definition np_amax (l : list float) : outcome float :=
  match l with
  | [] => Raises ValueError
  | x :: l' => Returns (fold_left np_maximum l' x)
  end.

(** Row-major offset of an index tuple; a negative index counts from the end
    of its axis.  The sampler always indexes with as many integers as the
    array has axes. *)
Fixpoint ravel (shp : list nat) (idx : list Z) (acc : Z) : outcome Z :=
  match shp, idx with
  | [], [] => Returns acc
  | s :: shp', i :: idx' =>
      let n := Z.of_nat s in
      if (0 <=? i) && (i <? n) then ravel shp' idx' (acc * n + i)
      else if (- n <=? i) && (i <? 0) then ravel shp' idx' (acc * n + (i + n))
      else Raises IndexError
  | _, _ => Raises IndexError
  end.

(** [w[tuple(point)]] *)
Definition getitem (w : weights) (point : list Z) : outcome float :=
  obind (ravel (shape w) point 0) (fun o =>
    match nth_error (data w) (Z.to_nat o) with
    | Some x => Returns x
    | None => Raises IndexError
    end).

(** [w / lmax] *)
Definition weights_over (w : weights) (lmax : float) : weights :=
  {| shape := shape w; data := map (fun x => PrimFloat.div x lmax) (data w) |}.

(** ** The environment of a call

    [np.random] is the process-wide random source: one draw of
    [uniform(low, high)] and one of [randint(low, high)] from a generator
    state.  [scipy.optimize.minimize] takes the objective, the starting point
    and the bounds, and yields the [x] attribute of its result. *)

Class RandomSource : Type := {
  rng : Type;
  next_uniform : float -> float -> rng -> float * rng;
  next_randint : Z -> Z -> rng -> Z * rng
}.

Class Optimizer : Type := {
  minimize : (list float -> outcome npvalue) -> list float ->
             list (float * float) -> outcome (list float)
}.

(** What [print] wrote: a string, or the bound pairs of [print( *bounds)]. *)
Inductive printed : Type :=
| PrintStr (s : string)
| PrintBounds (bs : list (float * float)).

Section Sampler.
Context {RS : RandomSource} {OPT : Optimizer}.

(** The state a call reads and writes, and computations over it; an
    exception or the end of the fuel keeps the state reached so far. *)
Record world : Type := { random_state : rng; stdout : list printed }.

Definition M (A : Type) : Type := world -> outcome A * world.

Definition ret {A} (a : A) : M A := fun w => (Returns a, w).
Definition raise {A} (e : pyexc) : M A := fun w => (Raises e, w).
Definition lift {A} (o : outcome A) : M A := fun w => (o, w).
Definition bind {A B} (c : M A) (k : A -> M B) : M B :=
  fun w =>
    match c w with
    | (Returns a, w') => k a w'
    | (Raises e, w') => (Raises e, w')
    | (Unfinished, w') => (Unfinished, w')
    end.

Notation "x <- c ;; k" := (bind c (fun x => k))
  (at level 61, c at next level, right associativity).

Definition print (p : printed) : M unit :=
  fun w => (Returns tt, {| random_state := random_state w; stdout := stdout w ++ [p] |}).

(** [try: c except: pass] *)
Definition try_pass {A} (c : M A) : M unit :=
  fun w =>
    match c w with
    | (Returns _, w') => (Returns tt, w')
    | (Raises _, w') => (Returns tt, w')
    | (Unfinished, w') => (Unfinished, w')
    end.

(** [k] successive draws. *)
Fixpoint draws {A} (draw : rng -> A * rng) (k : nat) (s : rng) : list A * rng :=
  match k with
  | O => ([], s)
  | S k' =>
      let (x, s1) := draw s in
      let (xs, s2) := draws draw k' s1 in
      (x :: xs, s2)
  end.

Definition draw_array {A} (draw : rng -> A * rng) (size : Z) : M (list A) :=
  fun w =>
    let (v, s) := draws draw (Z.to_nat size) (random_state w) in
    (Returns v, {| random_state := s; stdout := stdout w |}).

(** [np.random.uniform(low, high, size=size)]: a range that is not finite
    and a negative size are refused.  numpy refuses as well the sizes it
    cannot build, from [2^63] on with [ValueError]; the definition covers
    the sizes below. *)
Definition np_random_uniform (low high : float) (size : Z) : M (list float) :=
  if negb (PrimFloat.is_finite (PrimFloat.sub high low)) then raise OverflowError
  else if size <? 0 then raise ValueError
  else draw_array (next_uniform low high) size.

(** [np.random.randint(low, high, size=size)]: an empty range and a
    negative size are refused; the sizes are those of [np_random_uniform]. *)
Definition np_random_randint (low high : Z) (size : Z) : M (list Z) :=
  if high <=? low then raise ValueError
  else if size <? 0 then raise ValueError
  else draw_array (next_randint low high) size.

(** [np.mean(i)] of a bound pair. *)
Definition np_mean (b : float * float) : float :=
  PrimFloat.div (PrimFloat.add (fst b) (snd b)) 2%float.

(** ** The density and the process object *)

(** The argument lists the class passes to a callable density: an array
    and further positional strings, or the bound pairs as positional
    arguments together with keyword arguments. *)
Inductive pyargs : Type :=
| ArgsArray (a : ndarray float) (extra : list string)
| ArgsBounds (bs : list (float * float)) (kw : list (string * float)).

Inductive pyobject : Type :=
| PyCallable (f : pyargs -> outcome npvalue)
| PyList (items : list float)
| PyTuple (items : list float)
| PyArray (w : weights)
| PyDict (items : list (string * float))
| PyNone.

(** The values the [density] setter lets through. *)
Inductive density_value : Type :=
| DCallable (f : pyargs -> outcome npvalue)
| DList (items : list float)
| DTuple (items : list float)
| DArray (w : weights).

Definition callable (d : density_value) : bool :=
  match d with
  | DCallable _ => true
  | _ => false
  end.

Record SpatialPointProcess : Type := {
  density : density_value;
  density_kwargs : list (string * float)
}.

(** Lines 49-53. *)
Definition density_setter (value : pyobject) : outcome density_value :=
  match value with
  | PyCallable f => Returns (DCallable f)
  | PyList l => Returns (DList l)
  | PyTuple l => Returns (DTuple l)
  | PyArray w => Returns (DArray w)
  | PyDict _ | PyNone => Raises ValueError
  end.

(** Lines 60-64. *)
Definition density_kwargs_setter (value : pyobject)
  : outcome (list (string * float)) :=
  match value with
  | PyDict items => Returns items
  | _ => Raises ValueError
  end.

(** [SpatialPointProcess(density, density_kwargs)] *)
Definition init (density_arg density_kwargs_arg : pyobject)
  : outcome SpatialPointProcess :=
  obind (density_setter density_arg) (fun d =>
  obind (density_kwargs_setter density_kwargs_arg) (fun kw =>
  Returns {| density := d; density_kwargs := kw |})).

(** The value a call returns: [None] or an array of floats or of integers. *)
Inductive pyret : Type :=
| RNone
| RFloats (m : ndarray float)
| RInts (m : ndarray Z).

(** ** The rejection loop

    [callable(self.density)] is the same at each of its tests during a
    call, so the loop is an instance of one loop over the element type of
    the candidates: floats drawn from the bounds for a callable density,
    integers drawn from the axis lengths otherwise. *)

(** The [for] loops that build [Unthinned], one row per bound pair or per
    axis; [None] stands for a name that is not in [locals()]. *)
Fixpoint fill_rows {A X} (draw : X -> M (list A)) (xs : list X)
    (Unthinned : option (ndarray A)) : M (option (ndarray A)) :=
  match xs with
  | [] => ret Unthinned
  | x :: xs' =>
      v <- draw x ;;
      match Unthinned with
      | None => fill_rows draw xs' (Some (Arr1 v))
      | Some u =>
          u' <- lift (np_vstack u (Arr1 v)) ;;
          fill_rows draw xs' (Some u')
      end
  end.

Section Loop.
Context {A : Type}.
Variable candidates : M (option (ndarray A)).
Variable criteria : ndarray A -> outcome npvalue.
Variable n : Z.
Variable blocksize : Z.

(** One pass through the body of the [while] loop (lines 80-106): the block
    of candidates, the rank test of line 92 whose assignment to the [T]
    attribute of an array raises, the thresholds, the ratios, and the
    accepted columns put in [Thinned] or stacked to its right.  The
    [del Unthinned] of line 106 is the [None] from which [candidates]
    starts again. *)
Definition loop_body (Thinned : ndarray A) : M (ndarray A) :=
  local <- candidates ;;
  match local with
  | None => raise UnboundLocalError
  | Some Unthinned =>
      _ <- (if np_ndim (np_T Unthinned) =? 1 then raise AttributeError else ret tt) ;;
      U <- np_random_uniform 0%float 1%float blocksize ;;
      Criteria <- lift (criteria (np_T Unthinned)) ;;
      mask <- lift (np_less U Criteria) ;;
      accepted <- lift (take_columns Unthinned mask) ;;
      if np_len Thinned =? 0 then ret accepted
      else lift (np_hstack Thinned accepted)
  end.

(** [while len(Thinned.T) < n], at most [fuel] passes. *)
Fixpoint while_loop (fuel : nat) (Thinned : ndarray A) : M (ndarray A) :=
  if np_len (np_T Thinned) <? n then
    match fuel with
    | O => lift Unfinished
    | S fuel' =>
        Thinned' <- loop_body Thinned ;;
        while_loop fuel' Thinned'
    end
  else ret Thinned.

(** Lines 78-108: the loop from [np.array([])], then [Thinned[:, :n]] and
    [.T]. *)
Definition thin (fuel : nat) : M (ndarray A) :=
  Thinned <- while_loop fuel (Arr1 []) ;;
  Thinned' <- lift (first_columns Thinned n) ;;
  ret (np_T Thinned').

End Loop.

(** [self.density(Unthinned.T) / lmax] *)
Definition criteria_callable (f : pyargs -> outcome npvalue) (lmax : npvalue)
    (points : ndarray float) : outcome npvalue :=
  obind (f (ArgsArray points [])) (fun v => np_divide v lmax).

(** [Criteria_ndim = self.density / lmax] and the look-up of each point. *)
Definition criteria_array (w : weights) (lmax : float) (points : ndarray Z)
  : outcome npvalue :=
  let Criteria_ndim := weights_over w lmax in
  match points with
  | Arr2 pts => obind (omap (getitem Criteria_ndim) pts) (fun c => Returns (Vector c))
  | Arr1 _ => Raises TypeError
  end.

(** Lines 71-74, the maximum of a callable density: the optimiser on the
    negated density from the midpoints, then the density at the point found,
    called with [*self.density_kwargs], that is with the keys of the
    dictionary as further positional arguments. *)
Definition lmax_callable (self : SpatialPointProcess)
    (f : pyargs -> outcome npvalue) (bounds : list (float * float))
  : outcome npvalue :=
  let boundstuple := fold_left (fun acc i => acc ++ [i]) bounds [] in
  obind (minimize
           (fun x => obind (f (ArgsArray (Arr1 x) [])) (fun v => Returns (np_negative v)))
           (map np_mean bounds) boundstuple)
        (fun x => f (ArgsArray (Arr1 x) (map fst (density_kwargs self)))).

(** Lines 81-85: one row of [blocksize] uniform draws per bound pair. *)
Definition candidates_callable (bounds : list (float * float)) (blocksize : Z)
  : M (option (ndarray float)) :=
  fill_rows (fun bound => np_random_uniform (fst bound) (snd bound) blocksize)
            bounds None.

(** Lines 87-91: one row of [blocksize] integer draws per axis. *)
Definition candidates_array (w : weights) (blocksize : Z)
  : M (option (ndarray Z)) :=
  fill_rows (fun s => np_random_randint 0 (Z.of_nat s) blocksize) (shape w) None.

(** Lines 66-108.  [n = None] is the default [None] and [bounds = None]
    the default [()], the one value that [bounds is not ()] rejects; when
    the guard of line 67 or the test of line 68 fails the function falls
    off its end and returns [None].  A list or a tuple has no [shape]
    (line 87) and cannot be divided (line 98). *)
Definition _sample_spatial_point_process (self : SpatialPointProcess)
    (n : option Z) (bounds : option (list (float * float))) (algo : string)
    (blocksize : Z) (fuel : nat) : M pyret :=
  match n, bounds with
  | Some n, Some bounds =>
      if String.eqb algo "thinning" then
        match density self with
        | DCallable f =>
            lmax <- lift (lmax_callable self f bounds) ;;
            r <- thin (candidates_callable bounds blocksize)
                      (criteria_callable f lmax) n blocksize fuel ;;
            ret (RFloats r)
        | DArray w =>
            lmax <- lift (np_amax (data w)) ;;
            r <- thin (candidates_array w blocksize)
                      (criteria_array w lmax) n blocksize fuel ;;
            ret (RInts r)
        | DList l | DTuple l =>
            lmax <- lift (np_amax l) ;;
            r <- thin (A := Z) (raise AttributeError)
                      (fun _ => Raises TypeError) n blocksize fuel ;;
            ret (RInts r)
        end
      else ret RNone
  | _, _ => ret RNone
  end.

Definition bound_pairs (bounds : option (list (float * float)))
  : list (float * float) :=
  match bounds with
  | Some bs => bs
  | None => []
  end.

(** Lines 121-127 of [sample]: the print, and for a callable density the
    call on the bound pairs inside [try: ... except: pass]. *)
Definition diagnostic_probe (self : SpatialPointProcess)
    (bounds : option (list (float * float))) : M unit :=
  _ <- print (PrintStr "a") ;;
  match density self with
  | DCallable f =>
      try_pass
        (_ <- print (PrintBounds (bound_pairs bounds)) ;;
         lift (f (ArgsBounds (bound_pairs bounds) (density_kwargs self))))
  | _ => ret tt
  end.

(** Lines 110-128. *)
Definition sample (self : SpatialPointProcess)
    (n : option Z) (bounds : option (list (float * float))) (algo : string)
    (blocksize : Z) (fuel : nat) : M pyret :=
  _ <- diagnostic_probe self bounds ;;
  _sample_spatial_point_process self n bounds algo blocksize fuel.

End Sampler.

(** ** The descriptions of a process

    [template.format( **kwargs)] for a template made of literal text, the
    escapes [{{] and [}}], and fields [{name}] that carry a plain name: the
    text is produced left to right, a field is replaced by the value of the
    keyword argument of its name, and a name that no keyword argument has
    raises [KeyError].  No positional argument is ever passed, so an empty
    field raises [IndexError]; a brace that is not closed, and a closing
    brace on its own, raise [ValueError]. *)

Definition KeyError : pyexc := OtherError "KeyError".

Fixpoint lookup_kwarg (name : string) (kwargs : list (string * string))
  : option string :=
  match kwargs with
  | [] => None
  | (k, v) :: kwargs' => if String.eqb k name then Some v else lookup_kwarg name kwargs'
  end.

Fixpoint format_from (template : string) (field : option string)
    (kwargs : list (string * string)) : outcome string :=
  match template with
  | EmptyString =>
      match field with
      | None => Returns EmptyString
      | Some _ => Raises ValueError
      end
  | String c rest =>
      match field with
      | Some name =>
          if Ascii.eqb c "}" then
            if String.eqb name "" then Raises IndexError
            else match lookup_kwarg name kwargs with
                 | Some v =>
                     obind (format_from rest None kwargs)
                           (fun r => Returns (v ++ r)%string)
                 | None => Raises KeyError
                 end
          else format_from rest (Some (name ++ String c EmptyString)%string) kwargs
      | None =>
          if Ascii.eqb c "{" then
            match rest with
            | String "{" rest' =>
                obind (format_from rest' None kwargs)
                      (fun r => Returns (String "{" r))
            | _ => format_from rest (Some EmptyString) kwargs
            end
          else if Ascii.eqb c "}" then
            match rest with
            | String "}" rest' =>
                obind (format_from rest' None kwargs)
                      (fun r => Returns (String "}" r))
            | _ => Raises ValueError
            end
          else obind (format_from rest None kwargs) (fun r => Returns (String c r))
      end
  end.

Definition str_format (template : string) (kwargs : list (string * string))
  : outcome string :=
  format_from template None kwargs.

(** Lines 34-35. *)
Definition __str__ (self : SpatialPointProcess) : string :=
  "Spatial point process with specified density function in multidimensional space.".

(** Lines 37-42; [str_density] and [str_kwargs] stand for [str] on the two
    attributes. *)
Definition __repr__ (str_density : density_value -> string)
    (str_kwargs : list (string * float) -> string)
    (self : SpatialPointProcess) : outcome string :=
  str_format "MixedPoissonProcess(density={d}, density_kwargs={dkw})"
             [("rf"%string, str_density (density self));
              ("rkw"%string, str_kwargs (density_kwargs self))].

(** * Vocabulary of the statements *)

(** All rows have [k] entries. *)
Definition rectangular {A} (k : nat) (rows : list (list A)) : Prop :=
  Forall (fun r => length r = k) rows.

(** A rank-two array whose rows all have the length of the first. *)
Definition tidy {A} (u : ndarray A) : Prop :=
  match u with
  | Arr1 _ => True
  | Arr2 rows => rectangular (ncols rows) rows
  end.

(** The points held by [Thinned], in the order of their columns: none for
    [np.array([])], one per column afterwards. *)
Definition accepted_points {A} (Thinned : ndarray A) : list (list A) :=
  match Thinned with
  | Arr1 _ => []
  | Arr2 rows => columns rows
  end.

(** Row [i] of the array holds values that [P] relates to the [i]-th bound
    pair or axis. *)
Definition row_wise {X A} (P : X -> A -> Prop) (xs : list X)
    (rows : list (list A)) : Prop :=
  Forall2 (fun x r => Forall (P x) r) xs rows.

(** A [d x k] array of such rows, [d] being the (positive) length of [xs]. *)
Definition block_of {X A} (P : X -> A -> Prop) (xs : list X) (k : nat)
    (rows : list (list A)) : Prop :=
  xs <> [] /\ rectangular k rows /\ row_wise P xs rows.

(** The values [Thinned] takes at the head of the loop. *)
Inductive accumulator {X A} (P : X -> A -> Prop) (xs : list X)
  : ndarray A -> Prop :=
| acc_empty : accumulator P xs (Arr1 [])
| acc_rows rows k : block_of P xs k rows -> accumulator P xs (Arr2 rows).

(** No constraint on the entries: only the shape of the array matters. *)
Definition anything {X A} (_ : X) (_ : A) : Prop := True.

(** The candidates of a block, each with its threshold and its ratio: those
    whose threshold is strictly below their ratio, in the order in which
    they were generated. *)
Definition accepted {A} (U ratios : list float) (points : list (list A))
  : list (list A) :=
  map fst
      (filter (fun c => PrimFloat.ltb (fst (snd c)) (snd (snd c)))
              (combine points (combine U ratios))).

(** [low <= x <= high] *)
Definition within (bound : float * float) (x : float) : Prop :=
  PrimFloat.leb (fst bound) x = true /\ PrimFloat.leb x (snd bound) = true.

(** [i] is an index of an axis of length [s]. *)
Definition index_within (s : nat) (i : Z) : Prop := 0 <= i < Z.of_nat s.

(** [high - low] is neither infinite nor a NaN. *)
Definition finite_range (bound : float * float) : Prop :=
  PrimFloat.is_finite (PrimFloat.sub (snd bound) (fst bound)) = true.

(** What numpy documents of its draws, at a bound pair and at an axis. *)
Definition uniform_in_bounds {RS : RandomSource} (bound : float * float) : Prop :=
  forall s, within bound (fst (next_uniform (fst bound) (snd bound) s)).

Definition randint_in_range {RS : RandomSource} (s : nat) : Prop :=
  forall st, index_within s (fst (next_randint 0 (Z.of_nat s) st)).

(** A density that evaluates [g] at one point and at each point of a batch. *)
Definition vectorized (f : pyargs -> outcome npvalue)
    (g : list float -> float) : Prop :=
  (forall x, f (ArgsArray (Arr1 x) []) = Returns (Scalar (g x)))
  /\ (forall pts, f (ArgsArray (Arr2 pts) []) = Returns (Vector (map g pts))).

(** [lmax] can be computed (lines 70-76): the optimiser and the density at
    the point it finds return, or the weights have an entry. *)
Definition lmax_computed {OPT : Optimizer} (self : SpatialPointProcess)
    (bounds : list (float * float)) : Prop :=
  match density self with
  | DCallable f => exists lmax, lmax_callable self f bounds = Returns lmax
  | DList l | DTuple l => l <> []
  | DArray a => data a <> []
  end.

(** A weight that is neither a zero nor a NaN. *)
Definition nonzero_weight (x : float) : Prop :=
  PrimFloat.is_zero x = false /\ PrimFloat.is_nan x = false.

(** [r[:m]] on what a call returned. *)
Definition first_rows (m : nat) (r : pyret) : pyret :=
  match r with
  | RNone => RNone
  | RFloats (Arr1 v) => RFloats (Arr1 (firstn m v))
  | RFloats (Arr2 rows) => RFloats (Arr2 (firstn m rows))
  | RInts (Arr1 v) => RInts (Arr1 (firstn m v))
  | RInts (Arr2 rows) => RInts (Arr2 (firstn m rows))
  end.

(** A computation that leaves the standard output as it found it. *)
Definition quiet {RS : RandomSource} {A} (c : M A) : Prop :=
  forall w, stdout (snd (c w)) = stdout w.

(** A value laid over [k] candidates: a number stands for [k] copies of
    itself and so does an array of length one; an array of any other length
    must have one entry per candidate. *)
Definition entries (v : npvalue) (k : nat) : option (list float) :=
  match v with
  | PyFloat y | Scalar y => Some (repeat y k)
  | Vector w =>
      if Nat.eqb (length w) k then Some w
      else match w with
           | [y] => Some (repeat y k)
           | _ => None
           end
  end.

(** The acceptance ratios of a block of [k] candidates, one per candidate:
    what the density returned on the block, over [lmax].  There is none
    when the two do not fit the block, nor when both are Python floats and
    [lmax] is a zero. *)
Definition ratios_of (value lmax : npvalue) (k : nat) : option (list float) :=
  match entries value k, entries lmax k with
  | Some d, Some l =>
      match value, lmax with
      | PyFloat _, PyFloat c =>
          if PrimFloat.is_zero c then None else Some (zip_with PrimFloat.div d l)
      | _, _ => Some (zip_with PrimFloat.div d l)
      end
  | _, _ => None
  end.

(** The ratios of the candidates [pts] of a block: for a callable density,
    the density called once on the whole block, over [lmax]; for a weight
    array, the weight at each index tuple over [lmax]. *)
Definition ratio_callable (f : pyargs -> outcome npvalue) (lmax : npvalue)
    (pts : list (list float)) (ratios : list float) : Prop :=
  exists value,
    f (ArgsArray (Arr2 pts) []) = Returns value
    /\ ratios_of value lmax (length pts) = Some ratios.

Definition ratio_array (a : weights) (lmax : float)
    (pts : list (list Z)) (ratios : list float) : Prop :=
  Forall2 (fun p r => exists x, getitem a p = Returns x /\ r = PrimFloat.div x lmax)
          pts ratios.

(** One pass of the loop as seen from outside: its candidates in the order
    in which they were generated, the threshold drawn for each and the
    ratio of each. *)
Record pass (A : Type) : Type := {
  pass_block : list (list A);
  pass_thresholds : list float;
  pass_ratios : list float
}.

Arguments pass_block {A} p.
Arguments pass_thresholds {A} p.
Arguments pass_ratios {A} p.

(** The candidates a pass accepts. *)
Definition accepted_of {A} (p : pass A) : list (list A) :=
  accepted (pass_thresholds p) (pass_ratios p) (pass_block p).

(** [p] is the pass made from world [w]: the block is drawn, then
    [blocksize] thresholds from [uniform(0, 1)], one per candidate, by
    successive draws from the state the block left, and the ratios are
    those of the block; [w'] is the world after the draws. *)
Definition pass_from {RS : RandomSource} {A} (candidates : M (option (ndarray A)))
    (ratio_of : list (list A) -> list float -> Prop) (blocksize : Z)
    (w : world) (p : pass A) (w' : world) : Prop :=
  exists rows w1,
    candidates w = (Returns (Some (Arr2 rows)), w1)
    /\ pass_block p = columns rows
    /\ np_random_uniform 0%float 1%float blocksize w1 = (Returns (pass_thresholds p), w')
    /\ (pass_thresholds p, random_state w')
       = draws (next_uniform 0%float 1%float) (Z.to_nat blocksize) (random_state w1)
    /\ length (pass_block p) = Z.to_nat blocksize
    /\ length (pass_thresholds p) = Z.to_nat blocksize
    /\ length (pass_ratios p) = Z.to_nat blocksize
    /\ ratio_of (pass_block p) (pass_ratios p).

(** Successive passes, each from the world the one before left. *)
Fixpoint passes {RS : RandomSource} {A} (candidates : M (option (ndarray A)))
    (ratio_of : list (list A) -> list float -> Prop) (blocksize : Z)
    (w : world) (ps : list (pass A)) (w' : world) : Prop :=
  match ps with
  | [] => w' = w
  | p :: ps' =>
      exists w1, pass_from candidates ratio_of blocksize w p w1
                 /\ passes candidates ratio_of blocksize w1 ps' w'
  end.

(** The block sizes numpy accepts: a negative size is refused, and so is a
    size from [2^63] on. *)
Definition buildable (blocksize : Z) : Prop := 0 <= blocksize < 2 ^ 63.

(** The run returned or raised before its fuel ran out. *)
Definition finished {A} (o : outcome A) : Prop := o <> Unfinished.

(** Two worlds whose random source is in the same state. *)
Definition same_source {RS : RandomSource} (w1 w2 : world) : Prop :=
  random_state w1 = random_state w2.

(** A computation whose outcome and draws depend on the random source only. *)
Definition source_only {RS : RandomSource} {A} (c : M A) : Prop :=
  forall w1 w2, same_source w1 w2 ->
    fst (c w1) = fst (c w2) /\ same_source (snd (c w1)) (snd (c w2)).

(** ** A concrete environment

    A random source that walks through a table of dyadic fractions, an
    optimiser that evaluates the objective at the starting point and stays
    there, and a few densities. *)

Module Demo.

Definition table : list float :=
  [0.125; 0.625; 0.375; 0.875; 0.25; 0.75; 0.5; 0]%float.

Definition counter_source : RandomSource := {|
  rng := nat;
  next_uniform := fun low high s =>
    (PrimFloat.add low
       (PrimFloat.mul (PrimFloat.sub high low) (nth (s mod 8)%nat table 0%float)),
     S s);
  next_randint := fun low high s => (low + Z.of_nat s mod (high - low), S s)
|}.

Definition start_optimizer : Optimizer := {|
  minimize := fun objective x0 _ => obind (objective x0) (fun _ => Returns x0)
|}.

Definition unit_square : list (float * float) := [(0, 1); (0, 1)]%float.

(** [density(x) = x[..., 0]], with one positional argument. *)
Definition first_coordinate (p : list float) : float := hd 0%float p.

Definition ramp (a : pyargs) : outcome npvalue :=
  match a with
  | ArgsArray (Arr1 x) [] => Returns (Scalar (first_coordinate x))
  | ArgsArray (Arr2 pts) [] => Returns (Vector (map first_coordinate pts))
  | _ => Raises TypeError
  end.




(** A 2 x 3 array with two cells of weight zero. *)
Definition strip : weights :=
  {| shape := [2; 3]%nat; data := [3; 0; 3; 3; 3; 0]%float |}.

Definition grid : weights := {| shape := [2; 2]%nat; data := [1; 0; 0; 3]%float |}.
Definition line : weights := {| shape := [3]%nat; data := [1; 2; 3]%float |}.

Definition process (d : density_value) : SpatialPointProcess :=
  {| density := d; density_kwargs := [] |}.

Definition w0 : world (RS := counter_source) :=
  @Build_world counter_source 0%nat [].

End Demo.

Abbreviation demo_sample :=
  (sample (RS := Demo.counter_source) (OPT := Demo.start_optimizer)).

(** * Facts about float comparison *)

Section FloatOrder.

Lemma SFcompare_Lt_trans x y z :
  SFcompare x y = Some Lt -> SFcompare y z = Some Lt -> SFcompare x z = Some Lt.
Proof.
  destruct x as [sx|sx| |sx mx ex], y as [sy|sy| |sy my ey], z as [sz|sz| |sz mz ez];
    simpl; try discriminate;
    try destruct sx; try destruct sy; try destruct sz; try discriminate; try reflexivity;
    rewrite ?Pos.compare_cont_spec; simpl;
    destruct (Z.compare_spec ex ey), (Z.compare_spec ey ez), (Z.compare_spec ex ez);
    try discriminate; try reflexivity; try lia; subst;
    destruct (Pos.compare_spec mx my), (Pos.compare_spec my mz), (Pos.compare_spec mx mz);
    simpl; try discriminate; try reflexivity; try lia.
Qed.

Lemma SFleb_false_ltb x y :
  x <> S754_nan -> y <> S754_nan -> SFleb y x = false -> SFltb x y = true.
Proof.
  unfold SFleb, SFltb.
  destruct x as [sx|sx| |sx mx ex], y as [sy|sy| |sy my ey];
    simpl; try congruence;
    try destruct sx; try destruct sy; try congruence;
    rewrite ?Pos.compare_cont_spec; simpl; intros _ _;
    rewrite (Z.compare_antisym ex ey);
    destruct (Z.compare_spec ex ey); simpl; try congruence;
    rewrite (Pos.compare_antisym mx my);
    destruct (Pos.compare_spec mx my); simpl; congruence.
Qed.

Lemma SFleb_true_ltb x y : SFleb y x = true -> SFltb x y = false.
Proof.
  unfold SFleb, SFltb.
  destruct x as [sx|sx| |sx mx ex], y as [sy|sy| |sy my ey];
    simpl; try congruence;
    try destruct sx; try destruct sy; try congruence;
    rewrite ?Pos.compare_cont_spec; simpl;
    rewrite (Z.compare_antisym ex ey);
    destruct (Z.compare_spec ex ey); simpl; try congruence;
    rewrite (Pos.compare_antisym mx my);
    destruct (Pos.compare_spec mx my); simpl; congruence.
Qed.

Lemma SFltb_leb x y : SFltb x y = true -> SFleb x y = true.
Proof.
  unfold SFleb, SFltb. destruct (SFcompare x y) as [[]|]; congruence.
Qed.

Lemma is_nan_spec x : PrimFloat.is_nan x = true <-> Prim2SF x = S754_nan.
Proof.
  unfold PrimFloat.is_nan. rewrite eqb_spec. unfold SFeqb.
  destruct (Prim2SF x) as [s|s| |s m e]; simpl;
    try destruct s; simpl;
    rewrite ?Pos.compare_cont_spec, ?Z.compare_refl, ?Pos.compare_refl;
    simpl; split; congruence.
Qed.


Lemma ltb_nan_l x y : PrimFloat.is_nan x = true -> PrimFloat.ltb x y = false.
Proof. rewrite is_nan_spec, ltb_spec. intros ->. reflexivity. Qed.

Lemma ltb_trans x y z :
  PrimFloat.ltb x y = true -> PrimFloat.ltb y z = true -> PrimFloat.ltb x z = true.
Proof.
  rewrite !ltb_spec. unfold SFltb.
  destruct (SFcompare (Prim2SF x) (Prim2SF y)) as [[]|] eqn:Hxy; try discriminate.
  destruct (SFcompare (Prim2SF y) (Prim2SF z)) as [[]|] eqn:Hyz; try discriminate.
  intros _ _. now rewrite (SFcompare_Lt_trans _ _ _ Hxy Hyz).
Qed.

Lemma leb_false_ltb x y :
  PrimFloat.leb y x = false -> PrimFloat.is_nan x = false ->
  PrimFloat.is_nan y = false -> PrimFloat.ltb x y = true.
Proof.
  rewrite leb_spec, ltb_spec. intros H Hx Hy.
  apply SFleb_false_ltb; trivial; intros E; apply is_nan_spec in E; congruence.
Qed.

Lemma ltb_false_leb x y :
  PrimFloat.ltb x y = false -> PrimFloat.is_nan x = false ->
  PrimFloat.is_nan y = false -> PrimFloat.leb y x = true.
Proof.
  intros H Hx Hy. destruct (PrimFloat.leb y x) eqn:E; trivial.
  rewrite (leb_false_ltb _ _ E Hx Hy) in H. discriminate.
Qed.

End FloatOrder.

(** * Facts about lists, rows and columns *)

Lemma compress_zip_with {A B C} (f : B -> C -> A) mask l k :
  compress mask (zip_with f l k) = zip_with f (compress mask l) (compress mask k).
Proof.
  revert l k; induction mask as [|b mask IH]; intros [|x l] [|y k]; simpl; auto.
  - destruct b; simpl; auto. destruct (compress mask l); reflexivity.
  - destruct b; simpl; auto. f_equal. apply IH.
Qed.

Section ListFacts.
Context {A : Type}.

Lemma zip_with_length {B C} (f : A -> B -> C) l k :
  length l = length k -> length (zip_with f l k) = length l.
Proof.
  revert k; induction l as [|x l IH]; intros [|y k]; simpl; intros H;
    try discriminate; auto.
Qed.

Lemma zip_with_app {B C} (f : A -> B -> C) l1 l2 k1 k2 :
  length l1 = length k1 ->
  zip_with f (l1 ++ l2) (k1 ++ k2) = zip_with f l1 k1 ++ zip_with f l2 k2.
Proof.
  revert k1; induction l1 as [|x l1 IH]; intros [|y k1]; simpl; intros H;
    try discriminate; auto.
  f_equal. apply IH. lia.
Qed.

Lemma zip_with_firstn {B C} (f : A -> B -> C) m l k :
  firstn m (zip_with f l k) = zip_with f (firstn m l) (firstn m k).
Proof.
  revert l k; induction m as [|m IH]; intros [|x l] [|y k]; simpl; auto.
  f_equal. apply IH.
Qed.

Lemma compress_length mask (v : list A) :
  length mask = length v -> length (compress mask v) = length (filter id mask).
Proof.
  revert v; induction mask as [|b mask IH]; intros [|x v]; simpl; intros H;
    try discriminate; auto.
  destruct b; simpl; auto.
Qed.

Lemma compress_Forall (P : A -> Prop) mask v :
  Forall P v -> Forall P (compress mask v).
Proof.
  intros H; revert mask; induction H as [|x v Hx Hv IH]; intros [|b mask]; simpl; auto.
  destruct b; auto.
Qed.


Lemma firstn_Forall (P : A -> Prop) m (l : list A) :
  Forall P l -> Forall P (firstn m l).
Proof.
  intros H; revert m; induction H as [|x l Hx _ IH]; intros [|m]; simpl; auto.
Qed.

Lemma accepted_compress U ratios (points : list (list A)) :
  accepted U ratios points = compress (zip_with PrimFloat.ltb U ratios) points.
Proof.
  unfold accepted. revert U ratios.
  induction points as [|p points IH]; intros [|u U] [|r ratios]; simpl; trivial.
  destruct (PrimFloat.ltb u r); simpl; now rewrite IH.
Qed.

Lemma same_length_rectangular k (rows : list (list A)) :
  same_length k rows = true <-> rectangular k rows.
Proof.
  unfold same_length, rectangular. rewrite forallb_forall, Forall_forall.
  split; intros H r Hr; specialize (H r Hr); now apply Nat.eqb_eq.
Qed.

Lemma columns_of_length k (rows : list (list A)) :
  rectangular k rows -> length (columns_of k rows) = k.
Proof.
  induction 1 as [|r rows Hr _ IH]; simpl.
  - apply repeat_length.
  - rewrite zip_with_length; congruence.
Qed.

Lemma columns_of_app k1 k2 (r s : list (list A)) :
  length r = length s -> rectangular k1 r ->
  columns_of (k1 + k2) (zip_with (@app A) r s) = columns_of k1 r ++ columns_of k2 s.
Proof.
  intros Hlen Hr; revert s Hlen.
  induction Hr as [|a r Ha Hr IH]; intros [|b s]; simpl; intros Hlen; try discriminate.
  - apply repeat_app.
  - rewrite IH by lia. apply zip_with_app.
    now rewrite columns_of_length.
Qed.

Lemma columns_of_compress mask (rows : list (list A)) :
  columns_of (length (filter id mask)) (map (compress mask) rows)
  = compress mask (columns_of (length mask) rows).
Proof.
  induction rows as [|r rows IH]; simpl.
  - induction mask as [|[] mask IH]; simpl; auto. now rewrite IH.
  - now rewrite IH, compress_zip_with.
Qed.

Lemma columns_of_firstn m k (rows : list (list A)) :
  (m <= k)%nat ->
  columns_of m (map (firstn m) rows) = firstn m (columns_of k rows).
Proof.
  intros Hm. induction rows as [|r rows IH]; simpl.
  - revert k Hm. induction m as [|m IHm]; intros [|k] Hm; simpl; auto; try lia.
    f_equal. apply IHm. lia.
  - now rewrite IH, zip_with_firstn.
Qed.

Lemma columns_of_Forall2 {X} (P : X -> A -> Prop) k xs (rows : list (list A)) :
  row_wise P xs rows -> Forall (Forall2 P xs) (columns_of k rows).
Proof.
  induction 1 as [|x r xs rows Hr _ IH]; simpl.
  - apply Forall_forall. intros p Hp. apply repeat_spec in Hp. subst. constructor.
  - revert IH. generalize (columns_of k rows) as cs.
    induction Hr as [|a r Ha Hr IHr]; intros [|c cs] Hcs; simpl; auto.
    inversion Hcs; subst. constructor; auto.
Qed.

End ListFacts.

(** Blocks of rows: the shape and the row-wise property survive the
    operations of the loop, and the columns follow. *)
Section Blocks.
Context {X A : Type}.
Variable P : X -> A -> Prop.
Variable xs : list X.

Lemma block_ncols k rows : block_of P xs k rows -> ncols rows = k.
Proof.
  intros (Hxs & Hrect & Hrows). unfold ncols.
  destruct Hrows as [|x r xs' rows' _ _]; [congruence|].
  now inversion Hrect.
Qed.

Lemma block_length k rows : block_of P xs k rows -> length rows = length xs.
Proof. intros (_ & _ & H). symmetry. exact (Forall2_length H). Qed.

Lemma block_columns k rows :
  block_of P xs k rows ->
  length (columns rows) = k /\ Forall (Forall2 P xs) (columns rows).
Proof.
  intros H. unfold columns. rewrite (block_ncols _ _ H).
  destruct H as (_ & Hrect & Hrows). split.
  - now apply columns_of_length.
  - now apply columns_of_Forall2.
Qed.

Lemma block_compress k rows mask :
  block_of P xs k rows -> length mask = k ->
  block_of P xs (length (filter id mask)) (map (compress mask) rows)
  /\ columns (map (compress mask) rows) = compress mask (columns rows).
Proof.
  intros H Hmask. pose proof (block_ncols _ _ H) as Hn.
  destruct H as (Hxs & Hrect & Hrows).
  assert (Hb : block_of P xs (length (filter id mask)) (map (compress mask) rows)).
  { split; [assumption|split].
    - unfold rectangular in *. rewrite Forall_map.
      eapply Forall_impl; [|exact Hrect]. intros r Hr. simpl in Hr.
      apply compress_length. congruence.
    - unfold row_wise in *. clear Hrect Hn Hxs.
      induction Hrows; simpl; constructor; auto using compress_Forall. }
  split; [exact Hb|].
  unfold columns. rewrite (block_ncols _ _ Hb), Hn, <- Hmask.
  apply columns_of_compress.
Qed.

Lemma rectangular_zip_app k1 k2 (r s : list (list A)) :
  rectangular k1 r -> rectangular k2 s ->
  rectangular (k1 + k2) (zip_with (@app A) r s).
Proof.
  unfold rectangular. intros Hr; revert s.
  induction Hr as [|a r Ha _ IH]; intros s Hs; simpl; [constructor|].
  destruct Hs as [|b s Hb Hs]; constructor.
  - rewrite length_app. lia.
  - now apply IH.
Qed.

Lemma row_wise_zip_app (r s : list (list A)) :
  row_wise P xs r -> row_wise P xs s -> row_wise P xs (zip_with (@app A) r s).
Proof.
  unfold row_wise. intros Hr; revert s.
  induction Hr as [|x a xs' r Ha _ IH]; intros s Hs; simpl.
  - inversion Hs. constructor.
  - inversion Hs as [|x' b xs'' s' Hb Hs' E1 E2]; subst. constructor.
    + now apply Forall_app.
    + now apply IH.
Qed.

Lemma block_app k1 k2 r s :
  block_of P xs k1 r -> block_of P xs k2 s ->
  block_of P xs (k1 + k2) (zip_with (@app A) r s)
  /\ columns (zip_with (@app A) r s) = columns r ++ columns s.
Proof.
  intros Hr Hs.
  pose proof (block_ncols _ _ Hr) as Hnr. pose proof (block_ncols _ _ Hs) as Hns.
  pose proof (block_length _ _ Hr) as Hlr. pose proof (block_length _ _ Hs) as Hls.
  destruct Hr as (Hxs & Hrr & Hwr), Hs as (_ & Hrs & Hws).
  assert (Hb : block_of P xs (k1 + k2) (zip_with (@app A) r s)).
  { split; [assumption|split].
    - now apply rectangular_zip_app.
    - now apply row_wise_zip_app. }
  split; [exact Hb|].
  unfold columns. rewrite (block_ncols _ _ Hb), Hnr, Hns.
  apply columns_of_app; congruence.
Qed.

Lemma block_firstn k rows m :
  block_of P xs k rows -> (m <= k)%nat ->
  columns (map (firstn m) rows) = firstn m (columns rows).
Proof.
  intros H Hm. pose proof (block_ncols _ _ H) as Hn.
  unfold columns. rewrite Hn.
  assert (Hn' : ncols (map (firstn m) rows) = m).
  { destruct H as (Hxs & Hrect & Hrows). unfold ncols.
    destruct Hrows as [|x r xs' rows' _ _]; [congruence|]. simpl.
    inversion Hrect; subst. rewrite length_firstn. lia. }
  rewrite Hn'. now apply columns_of_firstn.
Qed.

End Blocks.

(** * Facts about the monad and the draws *)

Section MonadFacts.
Context {RS : RandomSource}.

Lemma bind_returns {A B} (c : M A) (k : A -> M B) w b w' :
  bind c k w = (Returns b, w') ->
  exists a w1, c w = (Returns a, w1) /\ k a w1 = (Returns b, w').
Proof.
  unfold bind. destruct (c w) as [[a|e|] w1]; try discriminate. eauto.
Qed.

Lemma bind_run {A B} (c : M A) (k : A -> M B) w a w1 :
  c w = (Returns a, w1) -> bind c k w = k a w1.
Proof. unfold bind. now intros ->. Qed.

Lemma lift_returns {A} (o : outcome A) w a w' :
  lift o w = (Returns a, w') -> o = Returns a /\ w' = w.
Proof. unfold lift. intros H. inversion H. auto. Qed.

Lemma obind_returns {A B} (o : outcome A) (k : A -> outcome B) b :
  obind o k = Returns b -> exists a, o = Returns a /\ k a = Returns b.
Proof. destruct o; simpl; try discriminate. eauto. Qed.

Lemma omap_returns {A B} (f : A -> outcome B) l r :
  omap f l = Returns r -> Forall2 (fun x y => f x = Returns y) l r.
Proof.
  revert r; induction l as [|x l IH]; simpl; intros r H.
  - inversion H. constructor.
  - apply obind_returns in H as (y & Hy & H).
    apply obind_returns in H as (ys & Hys & H). inversion H; subst.
    constructor; auto.
Qed.

Lemma omap_run {A B} (f : A -> outcome B) l r :
  Forall2 (fun x y => f x = Returns y) l r -> omap f l = Returns r.
Proof.
  induction 1 as [|x y l r Hxy _ IH]; simpl; auto.
  now rewrite Hxy; simpl; rewrite IH.
Qed.

Lemma draws_length {A} (draw : rng -> A * rng) k s :
  length (fst (draws draw k s)) = k.
Proof.
  revert s; induction k as [|k IH]; intros s; simpl; auto.
  destruct (draw s) as [x s1]. specialize (IH s1).
  destruct (draws draw k s1) as [v s2]. simpl in *. now rewrite IH.
Qed.

Lemma draws_Forall {A} (draw : rng -> A * rng) (Q : A -> Prop) k s :
  (forall s0, Q (fst (draw s0))) -> Forall Q (fst (draws draw k s)).
Proof.
  intros HQ. revert s; induction k as [|k IH]; intros s; simpl; auto.
  specialize (HQ s). destruct (draw s) as [x s1]. specialize (IH s1).
  destruct (draws draw k s1) as [v s2]. simpl in *. auto.
Qed.

Lemma draw_array_returns {A} (draw : rng -> A * rng) size w :
  exists v w', draw_array draw size w = (Returns v, w')
               /\ length v = Z.to_nat size /\ stdout w' = stdout w
               /\ v = fst (draws draw (Z.to_nat size) (random_state w)).
Proof.
  unfold draw_array. pose proof (draws_length draw (Z.to_nat size) (random_state w)) as H.
  destruct (draws draw (Z.to_nat size) (random_state w)) as [v s]. simpl in H.
  eauto 8.
Qed.

End MonadFacts.

(** * Facts about the rejection loop *)

Section LoopFacts.
Context {RS : RandomSource} {X A : Type}.
Variable P : X -> A -> Prop.
Variable xs : list X.
Variable candidates : M (option (ndarray A)).
Variable criteria : ndarray A -> outcome npvalue.
Variable n blocksize : Z.

(** Appending the accepted columns of a block (lines 102-105). *)
Lemma append_accepted Thinned sel k w :
  accumulator P xs Thinned -> block_of P xs k sel ->
  exists Thinned',
    (if np_len Thinned =? 0 then ret (Arr2 sel)
     else lift (np_hstack Thinned (Arr2 sel))) w = (Returns Thinned', w)
    /\ accumulator P xs Thinned'
    /\ accepted_points Thinned' = accepted_points Thinned ++ columns sel.
Proof.
  intros [|rows k0 Hrows] Hsel.
  - exists (Arr2 sel). simpl. repeat split. econstructor; eassumption.
  - pose proof (block_length _ _ _ _ Hrows) as Hl.
    pose proof (block_length _ _ _ _ Hsel) as Hl'.
    destruct (block_app _ _ _ _ _ _ Hrows Hsel) as [Hb Hc].
    exists (Arr2 (zip_with (@app A) rows sel)).
    assert (Hne : (np_len (Arr2 rows) =? 0) = false).
    { simpl. apply Z.eqb_neq. destruct Hrows as (Hxs & _). 
      destruct xs; [congruence|]. simpl in Hl. lia. }
    rewrite Hne. unfold lift; simpl.
    replace (length rows =? length sel)%nat with true
      by (symmetry; apply Nat.eqb_eq; congruence).
    repeat split; trivial. econstructor; eassumption.
Qed.

Hypothesis candidates_block :
  forall w rows w', candidates w = (Returns (Some (Arr2 rows)), w') ->
                    block_of P xs (ncols rows) rows.

Lemma loop_body_returns Thinned w Thinned' w' :
  loop_body candidates criteria blocksize Thinned w = (Returns Thinned', w') ->
  exists rows w1 U Criteria mask,
    candidates w = (Returns (Some (Arr2 rows)), w1)
    /\ np_random_uniform 0%float 1%float blocksize w1 = (Returns U, w')
    /\ criteria (Arr2 (columns rows)) = Returns Criteria
    /\ np_less U Criteria = Returns mask
    /\ length mask = ncols rows
    /\ (if np_len Thinned =? 0 then ret (Arr2 (map (compress mask) rows))
        else lift (np_hstack Thinned (Arr2 (map (compress mask) rows)))) w'
       = (Returns Thinned', w').
Proof.
  unfold loop_body. intros H.
  apply bind_returns in H as ([[v|rows]|] & w1 & Hc & H); try discriminate.
  apply bind_returns in H as ([] & w2 & Hw2 & H).
  simpl in Hw2. inversion Hw2; subst w2; clear Hw2.
  apply bind_returns in H as (U & w3 & HU & H).
  apply bind_returns in H as (C & w4 & HC & H).
  apply lift_returns in HC as [HC ->].
  apply bind_returns in H as (mask & w5 & Hm & H).
  apply lift_returns in Hm as [Hm ->].
  apply bind_returns in H as (sel & w6 & Hs & H).
  apply lift_returns in Hs as [Hs ->].
  simpl in Hs. destruct (length mask =? ncols rows)%nat eqn:E; try discriminate.
  inversion Hs; subst sel; clear Hs. apply Nat.eqb_eq in E.
  assert (w3 = w').
  { destruct (np_len Thinned =? 0); [inversion H; auto|].
    apply lift_returns in H as [_ ->]. reflexivity. }
  subst w3. exists rows, w1, U, C, mask. auto 10.
Qed.

Lemma loop_body_run Thinned w rows w1 U w2 Criteria mask :
  candidates w = (Returns (Some (Arr2 rows)), w1) ->
  np_random_uniform 0%float 1%float blocksize w1 = (Returns U, w2) ->
  criteria (Arr2 (columns rows)) = Returns Criteria ->
  np_less U Criteria = Returns mask ->
  length mask = ncols rows ->
  loop_body candidates criteria blocksize Thinned w
  = (if np_len Thinned =? 0 then ret (Arr2 (map (compress mask) rows))
     else lift (np_hstack Thinned (Arr2 (map (compress mask) rows)))) w2.
Proof.
  intros Hc HU HC Hm Hl. unfold loop_body.
  rewrite (bind_run _ _ _ _ _ Hc). simpl.
  rewrite (bind_run _ _ _ tt w1) by reflexivity.
  rewrite (bind_run _ _ _ _ _ HU).
  unfold bind at 1, lift at 1. rewrite HC.
  unfold bind at 1, lift at 1. rewrite Hm.
  unfold bind at 1, lift at 1. simpl.
  apply Nat.eqb_eq in Hl. now rewrite Hl.
Qed.

(** One iteration keeps the accumulator and appends, in generation order,
    the candidates whose mask entry holds. *)
Lemma loop_body_appends Thinned w Thinned' w' :
  accumulator P xs Thinned ->
  loop_body candidates criteria blocksize Thinned w = (Returns Thinned', w') ->
  accumulator P xs Thinned'
  /\ exists more, accepted_points Thinned' = accepted_points Thinned ++ more
                  /\ Forall (Forall2 P xs) more.
Proof.
  intros Hacc H.
  apply loop_body_returns in H as (rows & w1 & U & C & mask & Hc & HU & HC & Hm & Hl & H).
  apply candidates_block in Hc.
  destruct (block_compress _ _ _ _ mask Hc Hl) as [Hb Hcols].
  destruct (append_accepted _ _ _ w' Hacc Hb) as (T & HT & HaccT & Hpts).
  rewrite HT in H. inversion H; subst T. split; [assumption|].
  eexists; split; [eassumption|].
  now apply (block_columns _ _ _ _ Hb).
Qed.

Lemma while_loop_returns fuel : forall Thinned w Thinned' w',
  accumulator P xs Thinned ->
  Forall (Forall2 P xs) (accepted_points Thinned) ->
  while_loop candidates criteria n blocksize fuel Thinned w = (Returns Thinned', w') ->
  accumulator P xs Thinned'
  /\ (np_len (np_T Thinned') <? n) = false
  /\ Forall (Forall2 P xs) (accepted_points Thinned')
  /\ exists more, accepted_points Thinned' = accepted_points Thinned ++ more.
Proof.
  induction fuel as [|fuel IH]; intros T w T' w' Hacc Hpts H; simpl in H;
    destruct (np_len (np_T T) <? n) eqn:E; try discriminate.
  - inversion H; subst. repeat split; trivial. exists []. now rewrite app_nil_r.
  - apply bind_returns in H as (T1 & w1 & Hb & H).
    destruct (loop_body_appends _ _ _ _ Hacc Hb) as (Hacc1 & more & Hm & HP).
    assert (Hpts1 : Forall (Forall2 P xs) (accepted_points T1)).
    { rewrite Hm. now apply Forall_app. }
    destruct (IH _ _ _ _ Hacc1 Hpts1 H) as (Hacc' & Hn & Hpts' & more' & Hm').
    repeat split; trivial. exists (more ++ more'). now rewrite Hm', Hm, app_assoc.
  - inversion H; subst. repeat split; trivial. exists []. now rewrite app_nil_r.
Qed.

Lemma np_len_accepted Thinned :
  accumulator P xs Thinned ->
  np_len (np_T Thinned) = Z.of_nat (length (accepted_points Thinned)).
Proof.
  intros [|rows k Hb]; reflexivity.
Qed.

End LoopFacts.

(** * Facts about the [for] loops that build a block *)

Section FillRows.
Context {RS : RandomSource} {X A : Type}.
Variable P : X -> A -> Prop.
Variable Q : X -> Prop.
Variable draw : X -> M (list A).

Lemma np_vstack_returns (u : ndarray A) v U :
  np_vstack u (Arr1 v) = Returns U ->
  U = Arr2 (atleast_2d u ++ [v]) /\ tidy U.
Proof.
  unfold np_vstack. simpl.
  destruct (same_length _ _) eqn:E; try discriminate.
  intros H; inversion H; subst. split; trivial.
  now apply same_length_rectangular.
Qed.

Lemma np_vstack_run k (u : ndarray A) v :
  atleast_2d u <> [] -> rectangular k (atleast_2d u) -> length v = k ->
  np_vstack u (Arr1 v) = Returns (Arr2 (atleast_2d u ++ [v])).
Proof.
  intros Hne Hrect Hv. unfold np_vstack. simpl.
  assert (Hall : rectangular k (atleast_2d u ++ [v])).
  { apply Forall_app. split; trivial. now constructor. }
  assert (Hk : ncols (atleast_2d u ++ [v]) = k).
  { unfold ncols. destruct (atleast_2d u) as [|r rows]; [congruence|].
    now inversion Hrect. }
  rewrite Hk. apply same_length_rectangular in Hall. now rewrite Hall.
Qed.

Hypothesis draw_ok :
  forall x w v w', Q x -> draw x w = (Returns v, w') -> Forall (P x) v.

Lemma fill_rows_some xs : forall u w U w' xs0,
  Forall Q xs ->
  fill_rows draw xs (Some u) w = (Returns (Some U), w') ->
  row_wise P xs0 (atleast_2d u) -> tidy u ->
  row_wise P (xs0 ++ xs) (atleast_2d U) /\ tidy U
  /\ ((xs = [] /\ U = u) \/ exists rows, U = Arr2 rows).
Proof.
  induction xs as [|x xs IH]; intros u w U w' xs0 HQ H Hrows Htidy; simpl in H.
  - inversion H; subst. rewrite app_nil_r. auto.
  - inversion HQ as [|x' xs' Hx HQ']; subst.
    apply bind_returns in H as (v & w1 & Hv & H).
    apply bind_returns in H as (u' & w2 & Hst & H).
    apply lift_returns in Hst as [Hst ->].
    apply np_vstack_returns in Hst as [-> Htidy'].
    apply (draw_ok _ _ _ _ Hx) in Hv.
    apply (IH _ _ _ _ (xs0 ++ [x])) in H; trivial.
    + rewrite <- app_assoc in H. simpl in H.
      destruct H as (H1 & H2 & [[_ ->]|H3]); eauto 6.
    + simpl. apply Forall2_app; trivial. now repeat constructor.
Qed.

Lemma fill_rows_block xs w rows w' :
  Forall Q xs ->
  fill_rows draw xs None w = (Returns (Some (Arr2 rows)), w') ->
  block_of P xs (ncols rows) rows.
Proof.
  destruct xs as [|x xs']; simpl; intros HQ H; [discriminate|].
  inversion HQ as [|x' xs'' Hx HQ']; subst.
  apply bind_returns in H as (v & w1 & Hv & H).
  apply (draw_ok _ _ _ _ Hx) in Hv.
  apply (fill_rows_some _ _ _ _ _ [x]) in H; simpl; trivial.
  - destruct H as (H1 & H2 & _). repeat split; trivial. congruence.
  - now repeat constructor.
Qed.

End FillRows.

Section FillRowsTotal.
Context {RS : RandomSource} {X A : Type}.
Variable draw : X -> M (list A).
Variable k : nat.

Lemma fill_rows_some_run xs : forall u w,
  atleast_2d u <> [] -> rectangular k (atleast_2d u) ->
  (forall x w0, In x xs -> exists v w1, draw x w0 = (Returns v, w1) /\ length v = k) ->
  exists U w', fill_rows draw xs (Some u) w = (Returns (Some U), w')
               /\ rectangular k (atleast_2d U)
               /\ (xs <> [] -> exists rows, U = Arr2 rows).
Proof.
  induction xs as [|x xs IH]; intros u w Hne Hrect Hdraw; simpl.
  - exists u, w. repeat split; trivial. congruence.
  - destruct (Hdraw x w (or_introl eq_refl)) as (v & w1 & Hv & Hlen).
    rewrite (bind_run _ _ _ _ _ Hv).
    unfold bind at 1, lift at 1.
    rewrite (np_vstack_run k u v Hne Hrect Hlen).
    destruct (IH (Arr2 (atleast_2d u ++ [v])) w1) as (U & w' & HU & HrU & Hrows).
    + simpl. now destruct (atleast_2d u).
    + simpl. apply Forall_app. split; trivial. now constructor.
    + intros x0 w0 Hx0. apply Hdraw. now right.
    + exists U, w'. repeat split; trivial. intros _.
      destruct xs as [|x' xs']; [|apply Hrows; congruence].
      simpl in HU. inversion HU. eauto.
Qed.

Lemma fill_rows_run xs w :
  (2 <= length xs)%nat ->
  (forall x w0, In x xs -> exists v w1, draw x w0 = (Returns v, w1) /\ length v = k) ->
  exists rows w', fill_rows draw xs None w = (Returns (Some (Arr2 rows)), w')
                  /\ rectangular k rows.
Proof.
  destruct xs as [|x xs']; simpl; intros Hlen Hdraw; [lia|].
  destruct (Hdraw x w (or_introl eq_refl)) as (v & w1 & Hv & Hk).
  rewrite (bind_run _ _ _ _ _ Hv).
  destruct (fill_rows_some_run xs' (Arr1 v) w1) as (U & w' & HU & HrU & Hrows).
  - discriminate.
  - now repeat constructor.
  - intros x0 w0 Hx0. apply Hdraw. now right.
  - destruct Hrows as [rows ->]; [destruct xs'; simpl in *; [lia|congruence]|].
    eauto.
Qed.

End FillRowsTotal.

(** * The draws of a block *)

Section Draws.
Context {RS : RandomSource}.

Lemma np_random_uniform_returns low high size w v w' :
  np_random_uniform low high size w = (Returns v, w') ->
  v = fst (draws (next_uniform low high) (Z.to_nat size) (random_state w))
  /\ length v = Z.to_nat size.
Proof.
  unfold np_random_uniform.
  destruct (negb _); [discriminate|]. destruct (size <? 0); [discriminate|].
  destruct (draw_array_returns (next_uniform low high) size w)
    as (v0 & w0 & -> & Hlen & _ & Hv).
  intros H; inversion H; subst. auto.
Qed.

Lemma np_random_uniform_draws low high size w v w' :
  np_random_uniform low high size w = (Returns v, w') ->
  (v, random_state w')
  = draws (next_uniform low high) (Z.to_nat size) (random_state w).
Proof.
  unfold np_random_uniform, draw_array.
  destruct (negb _); [discriminate|]. destruct (size <? 0); [discriminate|].
  destruct (draws _ _ _) as [v0 s0]. intros H; now inversion H.
Qed.

Lemma np_random_uniform_run low high size w :
  finite_range (low, high) -> 0 <= size ->
  exists v w', np_random_uniform low high size w = (Returns v, w')
               /\ length v = Z.to_nat size.
Proof.
  unfold finite_range, np_random_uniform. simpl. intros -> Hsize. simpl.
  replace (size <? 0) with false by (symmetry; apply Z.ltb_ge; lia).
  destruct (draw_array_returns (next_uniform low high) size w)
    as (v & w' & H & Hlen & _). eauto.
Qed.

Lemma np_random_uniform_within bound size w v w' :
  uniform_in_bounds bound ->
  np_random_uniform (fst bound) (snd bound) size w = (Returns v, w') ->
  Forall (within bound) v.
Proof.
  intros Hb H. apply np_random_uniform_returns in H as [-> _].
  now apply draws_Forall.
Qed.

Lemma np_random_randint_returns low high size w v w' :
  np_random_randint low high size w = (Returns v, w') ->
  v = fst (draws (next_randint low high) (Z.to_nat size) (random_state w))
  /\ length v = Z.to_nat size.
Proof.
  unfold np_random_randint.
  destruct (high <=? low); [discriminate|]. destruct (size <? 0); [discriminate|].
  destruct (draw_array_returns (next_randint low high) size w)
    as (v0 & w0 & -> & Hlen & _ & Hv).
  intros H; inversion H; subst. auto.
Qed.

Lemma np_random_randint_run s size w :
  (0 < s)%nat -> 0 <= size ->
  exists v w', np_random_randint 0 (Z.of_nat s) size w = (Returns v, w')
               /\ length v = Z.to_nat size.
Proof.
  unfold np_random_randint. intros Hs Hsize.
  replace (Z.of_nat s <=? 0) with false by (symmetry; apply Z.leb_gt; lia).
  replace (size <? 0) with false by (symmetry; apply Z.ltb_ge; lia).
  destruct (draw_array_returns (next_randint 0 (Z.of_nat s)) size w)
    as (v & w' & H & Hlen & _). eauto.
Qed.

Lemma np_random_randint_within s size w v w' :
  randint_in_range s ->
  np_random_randint 0 (Z.of_nat s) size w = (Returns v, w') ->
  Forall (index_within s) v.
Proof.
  intros Hs H. apply np_random_randint_returns in H as [-> _].
  now apply draws_Forall.
Qed.

Lemma rectangular_ncols {A} k (rows : list (list A)) :
  rows <> [] -> rectangular k rows -> ncols rows = k.
Proof.
  intros Hne Hrect. unfold ncols. destruct rows as [|r rows]; [congruence|].
  now inversion Hrect.
Qed.

Lemma candidates_callable_block bounds blocksize w rows w' :
  Forall uniform_in_bounds bounds ->
  candidates_callable bounds blocksize w = (Returns (Some (Arr2 rows)), w') ->
  block_of within bounds (ncols rows) rows.
Proof.
  apply fill_rows_block. intros x w1 v w2. apply np_random_uniform_within.
Qed.

Lemma candidates_array_block a blocksize w rows w' :
  Forall randint_in_range (shape a) ->
  candidates_array a blocksize w = (Returns (Some (Arr2 rows)), w') ->
  block_of index_within (shape a) (ncols rows) rows.
Proof.
  apply fill_rows_block. intros x w1 v w2. apply np_random_randint_within.
Qed.

Lemma candidates_callable_run bounds blocksize w :
  (2 <= length bounds)%nat -> Forall finite_range bounds -> 0 <= blocksize ->
  exists rows w',
    candidates_callable bounds blocksize w = (Returns (Some (Arr2 rows)), w')
    /\ ncols rows = Z.to_nat blocksize.
Proof.
  intros Hd Hfin Hsize.
  destruct (fill_rows_run
              (fun bound => np_random_uniform (fst bound) (snd bound) blocksize)
              (Z.to_nat blocksize) bounds w Hd) as (rows & w' & H & Hrect).
  - intros [low high] w0 Hin. apply np_random_uniform_run; trivial.
    rewrite Forall_forall in Hfin. now apply Hfin.
  - exists rows, w'. split; [exact H|].
    apply rectangular_ncols; trivial.
    apply (fill_rows_block anything (fun _ => True)) in H.
    + pose proof (block_length _ _ _ _ H) as Hl.
      destruct rows; [simpl in Hl; lia|congruence].
    + intros. apply Forall_forall. intros; exact I.
    + apply Forall_forall. intros; exact I.
Qed.

Lemma candidates_array_run a blocksize w :
  (2 <= length (shape a))%nat -> Forall (fun s => 0 < s)%nat (shape a) ->
  0 <= blocksize ->
  exists rows w',
    candidates_array a blocksize w = (Returns (Some (Arr2 rows)), w')
    /\ ncols rows = Z.to_nat blocksize.
Proof.
  intros Hd Hpos Hsize.
  destruct (fill_rows_run
              (fun s => np_random_randint 0 (Z.of_nat s) blocksize)
              (Z.to_nat blocksize) (shape a) w Hd) as (rows & w' & H & Hrect).
  - intros s w0 Hin. apply np_random_randint_run; trivial.
    rewrite Forall_forall in Hpos. now apply Hpos.
  - exists rows, w'. split; [exact H|].
    apply rectangular_ncols; trivial.
    apply (fill_rows_block anything (fun _ => True)) in H.
    + pose proof (block_length _ _ _ _ H) as Hl.
      destruct rows; [simpl in Hl; lia|congruence].
    + intros. apply Forall_forall. intros; exact I.
    + apply Forall_forall. intros; exact I.
Qed.

End Draws.

(** * The maximum of the weights and the look-up of a ratio *)

Section Weights.

Lemma SFcompare_Lt_Eq_trans x y z :
  SFcompare x y = Some Lt -> SFcompare y z = Some Eq -> SFcompare x z = Some Lt.
Proof.
  destruct x as [sx|sx| |sx mx ex], y as [sy|sy| |sy my ey], z as [sz|sz| |sz mz ez];
    simpl; try discriminate;
    try destruct sx; try destruct sy; try destruct sz; try discriminate; try reflexivity;
    rewrite ?Pos.compare_cont_spec; simpl;
    destruct (Z.compare_spec ex ey), (Z.compare_spec ey ez), (Z.compare_spec ex ez);
    try discriminate; try reflexivity; try lia; subst;
    destruct (Pos.compare_spec mx my), (Pos.compare_spec my mz), (Pos.compare_spec mx mz);
    simpl; try discriminate; try reflexivity; try lia.
Qed.

Lemma ltb_leb_trans x y z :
  PrimFloat.ltb x y = true -> PrimFloat.leb y z = true -> PrimFloat.ltb x z = true.
Proof.
  rewrite !ltb_spec, leb_spec. unfold SFltb, SFleb.
  destruct (SFcompare (Prim2SF x) (Prim2SF y)) as [[]|] eqn:Hxy; try discriminate.
  destruct (SFcompare (Prim2SF y) (Prim2SF z)) as [[]|] eqn:Hyz; try discriminate;
    intros _ _.
  - now rewrite (SFcompare_Lt_Eq_trans _ _ _ Hxy Hyz).
  - now rewrite (SFcompare_Lt_trans _ _ _ Hxy Hyz).
Qed.

Lemma np_maximum_nan x y : PrimFloat.is_nan x = true -> np_maximum x y = x.
Proof. unfold np_maximum. now intros ->. Qed.

Lemma fold_maximum_nan l x :
  PrimFloat.is_nan x = true -> fold_left np_maximum l x = x.
Proof.
  intros Hx. induction l as [|y l IH]; simpl; trivial.
  now rewrite (np_maximum_nan x y Hx).
Qed.

Lemma fold_maximum_spec l : forall x,
  In (fold_left np_maximum l x) (x :: l)
  /\ forall y, In y (x :: l) -> PrimFloat.ltb (fold_left np_maximum l x) y = false.
Proof.
  induction l as [|y l IH]; intros x; simpl.
  - split; [now left|]. intros y [<-|[]].
    destruct (PrimFloat.ltb x x) eqn:E; trivial.
    destruct (PrimFloat.is_nan x) eqn:Hx.
    + now rewrite (ltb_nan_l x x Hx) in E.
    + rewrite ltb_spec in E. unfold SFltb in E.
      assert (Hrefl : SFleb (Prim2SF x) (Prim2SF x) = true)
        by now apply SFltb_leb; unfold SFltb.
      apply SFleb_true_ltb in Hrefl. unfold SFltb in Hrefl.
      destruct (SFcompare (Prim2SF x) (Prim2SF x)) as [[]|]; congruence.
  - assert (Hcase :
      (np_maximum x y = x
       /\ (PrimFloat.ltb y x = true \/ PrimFloat.is_nan x = true))
      \/ (np_maximum x y = y
          /\ PrimFloat.ltb y x = false /\ PrimFloat.is_nan x = false)).
    { unfold np_maximum.
      destruct (PrimFloat.ltb y x), (PrimFloat.is_nan x); simpl; auto. }
    destruct Hcase as [[-> Hc]|(-> & Hlt & Hx)].
    + destruct (IH x) as [Hin Hmax]. split.
      * destruct Hin as [Hin|Hin]; auto.
      * intros z [<-|[<-|Hz]]; [apply Hmax; now left| |apply Hmax; now right].
        destruct (PrimFloat.ltb (fold_left np_maximum l x) y) eqn:E; trivial.
        exfalso. destruct Hc as [Hc|Hc].
        -- pose proof (ltb_trans _ _ _ E Hc) as Hlt.
           rewrite (Hmax x (or_introl eq_refl)) in Hlt. discriminate.
        -- rewrite (fold_maximum_nan l x Hc) in E.
           rewrite (ltb_nan_l x y Hc) in E. discriminate.
    + destruct (IH y) as [Hin Hmax]. split.
      * destruct Hin as [Hin|Hin]; auto.
      * intros z [<-|[<-|Hz]]; [|apply Hmax; now left|apply Hmax; now right].
        destruct (PrimFloat.ltb (fold_left np_maximum l y) x) eqn:E; trivial.
        exfalso. destruct (PrimFloat.is_nan y) eqn:Hy.
        -- rewrite (fold_maximum_nan l y Hy) in E. congruence.
        -- pose proof (ltb_false_leb _ _ Hlt Hy Hx) as Hle.
           pose proof (ltb_leb_trans _ _ _ E Hle) as Hlt'.
           rewrite (Hmax y (or_introl eq_refl)) in Hlt'. discriminate.
Qed.

(** [np.amax] yields an entry that no entry exceeds; without NaNs every
    entry is below or equal to it. *)
Lemma np_amax_spec l m :
  np_amax l = Returns m ->
  In m l
  /\ (forall y, In y l -> PrimFloat.ltb m y = false)
  /\ (Forall (fun y => PrimFloat.is_nan y = false) l ->
      forall y, In y l -> PrimFloat.leb y m = true).
Proof.
  destruct l as [|x l]; simpl; [discriminate|].
  intros H; inversion H; subst; clear H.
  destruct (fold_maximum_spec l x) as [Hin Hmax].
  repeat split; trivial.
  intros Hnan y Hy. rewrite Forall_forall in Hnan.
  apply ltb_false_leb; auto.
Qed.


Lemma ravel_in_range shp : forall idx acc,
  Forall2 index_within shp idx -> 0 <= acc ->
  exists o, ravel shp idx acc = Returns o
            /\ acc * Z.of_nat (fold_right Nat.mul 1%nat shp) <= o
               < (acc + 1) * Z.of_nat (fold_right Nat.mul 1%nat shp).
Proof.
  induction shp as [|s shp IH]; intros idx acc H Hacc; inversion H; subst; simpl.
  - exists acc. split; trivial. lia.
  - match goal with Hi : index_within s ?i |- _ => destruct Hi as [Hi0 Hi1] end.
    match goal with Hl : Forall2 index_within shp ?l |- _ =>
      destruct (IH l (acc * Z.of_nat s + y) Hl ltac:(nia)) as (o & Ho & Hlo & Hhi)
    end.
    replace (0 <=? y) with true by (symmetry; apply Z.leb_le; lia).
    replace (y <? Z.of_nat s) with true by (symmetry; apply Z.ltb_lt; lia).
    simpl. exists o. split; trivial. rewrite Nat2Z.inj_mul. nia.
Qed.

Lemma getitem_run a point :
  well_formed a -> Forall2 index_within (shape a) point ->
  exists x, getitem a point = Returns x /\ In x (data a).
Proof.
  intros Hwf Hpoint. unfold getitem.
  destruct (ravel_in_range (shape a) point 0 Hpoint ltac:(lia)) as (o & -> & Hlo & Hhi).
  simpl. unfold well_formed in Hwf.
  destruct (nth_error (data a) (Z.to_nat o)) as [x|] eqn:E.
  - exists x. split; trivial. eapply nth_error_In; eassumption.
  - apply nth_error_None in E. lia.
Qed.

Lemma getitem_weights_over a lmax point :
  getitem (weights_over a lmax) point
  = obind (getitem a point) (fun x => Returns (PrimFloat.div x lmax)).
Proof.
  unfold getitem, weights_over. simpl.
  destruct (ravel (shape a) point 0) as [o|e|]; simpl; trivial.
  rewrite nth_error_map. now destruct (nth_error (data a) (Z.to_nat o)).
Qed.

Lemma criteria_array_run a lmax points :
  well_formed a -> Forall (Forall2 index_within (shape a)) points ->
  exists ratios,
    criteria_array a lmax (Arr2 points) = Returns (Vector ratios)
    /\ Forall2 (fun p r => getitem (weights_over a lmax) p = Returns r) points ratios.
Proof.
  intros Hwf Hpts. unfold criteria_array.
  assert (H : exists ratios,
             Forall2 (fun p r => getitem (weights_over a lmax) p = Returns r)
                     points ratios).
  { induction Hpts as [|p points Hp _ [ratios IH]]; [exists []; constructor|].
    destruct (getitem_run a p Hwf Hp) as (x & Hx & _).
    exists (PrimFloat.div x lmax :: ratios). constructor; trivial.
    now rewrite getitem_weights_over, Hx. }
  destruct H as [ratios H]. exists ratios. split; trivial.
  now rewrite (omap_run _ _ _ H).
Qed.

Lemma criteria_callable_run f g c points :
  vectorized f g ->
  criteria_callable f (Scalar c) (Arr2 points)
  = Returns (Vector (map (fun p => PrimFloat.div (g p) c) points)).
Proof.
  intros [_ Hf]. unfold criteria_callable. rewrite Hf. simpl.
  now rewrite map_map.
Qed.

Lemma np_less_run U ratios :
  length U = length ratios ->
  np_less U (Vector ratios) = Returns (zip_with PrimFloat.ltb U ratios).
Proof.
  intros H. simpl. unfold broadcast.
  now replace (length U =? length ratios)%nat with true
    by (symmetry; now apply Nat.eqb_eq).
Qed.

End Weights.

(** * Progress of the loop when its parts cannot fail *)

Section LoopProgress.
Context {RS : RandomSource} {X A : Type}.
Variable P : X -> A -> Prop.
Variable xs : list X.
Variable candidates : M (option (ndarray A)).
Variable criteria : ndarray A -> outcome npvalue.
Variable n blocksize : Z.

Hypothesis blocksize_ok : 0 <= blocksize.
Hypothesis candidates_run :
  forall w, exists rows w',
    candidates w = (Returns (Some (Arr2 rows)), w')
    /\ block_of P xs (Z.to_nat blocksize) rows.
Hypothesis criteria_run :
  forall rows, block_of P xs (Z.to_nat blocksize) rows ->
    exists ratios, criteria (Arr2 (columns rows)) = Returns (Vector ratios)
                   /\ length ratios = Z.to_nat blocksize.

Lemma loop_body_total Thinned w :
  accumulator P xs Thinned ->
  exists rows w1 U w2 ratios Thinned',
    candidates w = (Returns (Some (Arr2 rows)), w1)
    /\ np_random_uniform 0%float 1%float blocksize w1 = (Returns U, w2)
    /\ criteria (Arr2 (columns rows)) = Returns (Vector ratios)
    /\ length U = length (columns rows)
    /\ length ratios = length (columns rows)
    /\ loop_body candidates criteria blocksize Thinned w = (Returns Thinned', w2)
    /\ accumulator P xs Thinned'
    /\ accepted_points Thinned'
       = accepted_points Thinned ++ accepted U ratios (columns rows).
Proof.
  intros Hacc.
  destruct (candidates_run w) as (rows & w1 & Hc & Hb).
  destruct (np_random_uniform_run 0%float 1%float blocksize w1 eq_refl blocksize_ok)
    as (U & w2 & HU & HlU).
  destruct (criteria_run rows Hb) as (ratios & HC & Hlr).
  destruct (block_columns _ _ _ _ Hb) as [Hk _].
  pose proof (block_ncols _ _ _ _ Hb) as Hn.
  assert (Hmask : length (zip_with PrimFloat.ltb U ratios) = Z.to_nat blocksize)
    by (rewrite zip_with_length; congruence).
  destruct (block_compress _ _ _ _ _ Hb Hmask) as [Hsel Hcols].
  destruct (append_accepted _ _ _ _ _ w2 Hacc Hsel) as (T & HT & HaccT & Hpts).
  exists rows, w1, U, w2, ratios, T.
  repeat split; trivial; try congruence.
  - rewrite (loop_body_run candidates criteria blocksize Thinned w rows w1 U w2
               (Vector ratios) (zip_with PrimFloat.ltb U ratios) Hc HU HC);
      trivial; try congruence.
    apply np_less_run. congruence.
  - now rewrite Hpts, Hcols, accepted_compress.
Qed.

(** The loop cannot raise: it returns or is still running. *)
Lemma while_loop_progress fuel : forall Thinned w,
  accumulator P xs Thinned ->
  fst (while_loop candidates criteria n blocksize fuel Thinned w) = Unfinished
  \/ exists Thinned' w',
       while_loop candidates criteria n blocksize fuel Thinned w = (Returns Thinned', w').
Proof.
  induction fuel as [|fuel IH]; intros T w Hacc; cbn [while_loop];
    destruct (np_len (np_T T) <? n); unfold ret, lift; simpl; eauto.
  destruct (loop_body_total T w Hacc)
    as (rows & w1 & U & w2 & ratios & T' & _ & _ & _ & _ & _ & Hb & Hacc' & _).
  rewrite (bind_run _ _ _ _ _ Hb). now apply IH.
Qed.

Hypothesis never_below :
  forall rows ratios,
    block_of P xs (Z.to_nat blocksize) rows ->
    criteria (Arr2 (columns rows)) = Returns (Vector ratios) ->
    Forall (fun r => forall u, PrimFloat.ltb u r = false) ratios.



End LoopProgress.

(** * More fuel changes nothing once the call has finished *)

Section Fuel.
Context {RS : RandomSource} {OPT : Optimizer}.

Lemma while_loop_fuel {A} (candidates : M (option (ndarray A))) criteria n blocksize
      fuel : forall Thinned w o w' fuel',
  while_loop candidates criteria n blocksize fuel Thinned w = (o, w') ->
  finished o -> (fuel <= fuel')%nat ->
  while_loop candidates criteria n blocksize fuel' Thinned w = (o, w').
Proof.
  induction fuel as [|fuel IH]; intros T w o w' fuel' H Hfin Hle;
    destruct fuel' as [|fuel'']; cbn [while_loop] in *; try lia;
    destruct (np_len (np_T T) <? n); trivial.
  - unfold lift in H. inversion H; subst. exfalso. now apply Hfin.
  - unfold bind in *.
    destruct (loop_body candidates criteria blocksize T w) as [[T1|e|] w1]; trivial.
    apply (IH _ _ _ _ _ H Hfin). lia.
Qed.

Lemma thin_fuel {A} (candidates : M (option (ndarray A))) criteria n blocksize
      fuel fuel' w o w' :
  thin candidates criteria n blocksize fuel w = (o, w') ->
  finished o -> (fuel <= fuel')%nat ->
  thin candidates criteria n blocksize fuel' w = (o, w').
Proof.
  unfold thin, bind. intros H Hfin Hle.
  destruct (while_loop candidates criteria n blocksize fuel (Arr1 []) w)
    as [o1 w1] eqn:E.
  assert (Hfin1 : finished o1).
  { intros ->. inversion H; subst. now apply Hfin. }
  now rewrite (while_loop_fuel _ _ _ _ _ _ _ _ _ fuel' E Hfin1 Hle).
Qed.

Lemma bind_thin_fuel {A B} (candidates : M (option (ndarray A))) criteria n
      blocksize (k : ndarray A -> M B) fuel fuel' w o w' :
  bind (thin candidates criteria n blocksize fuel) k w = (o, w') ->
  finished o -> (fuel <= fuel')%nat ->
  bind (thin candidates criteria n blocksize fuel') k w = (o, w').
Proof.
  unfold bind at 1. intros H Hfin Hle.
  destruct (thin candidates criteria n blocksize fuel w) as [o1 w1] eqn:E.
  assert (Hfin1 : finished o1).
  { intros ->. inversion H; subst. now apply Hfin. }
  unfold bind. now rewrite (thin_fuel _ _ _ _ _ fuel' _ _ _ E Hfin1 Hle).
Qed.

Lemma _sample_fuel self n bounds algo blocksize fuel fuel' w o w' :
  _sample_spatial_point_process self n bounds algo blocksize fuel w = (o, w') ->
  finished o -> (fuel <= fuel')%nat ->
  _sample_spatial_point_process self n bounds algo blocksize fuel' w = (o, w').
Proof.
  unfold _sample_spatial_point_process. intros H Hfin Hle.
  destruct n as [n|]; trivial. destruct bounds as [bounds|]; trivial.
  destruct (String.eqb algo "thinning"); trivial.
  destruct (density self) as [f|l|l|a]; unfold bind at 1 in H; unfold bind at 1;
    match goal with
    | |- context [lift ?c w] => destruct (lift c w) as [[lmax|e|] w1]; trivial
    end;
    now apply (bind_thin_fuel _ _ _ _ _ fuel).
Qed.

Lemma sample_fuel self n bounds algo blocksize fuel fuel' w o w' :
  sample self n bounds algo blocksize fuel w = (o, w') ->
  finished o -> (fuel <= fuel')%nat ->
  sample self n bounds algo blocksize fuel' w = (o, w').
Proof.
  unfold sample, bind. intros H Hfin Hle.
  destruct (diagnostic_probe self bounds w) as [[[]|e|] w1]; trivial.
  now apply (_sample_fuel _ _ _ _ _ fuel).
Qed.

End Fuel.

(** * The call reads nothing of the world but the random source *)

Section SourceOnly.
Context {RS : RandomSource} {OPT : Optimizer}.

Lemma source_only_lift {A} (o : outcome A) : source_only (lift o).
Proof. intros w1 w2 H. split; trivial. Qed.

Lemma source_only_ret {A} (a : A) : source_only (ret a).
Proof. intros w1 w2 H. split; trivial. Qed.

Lemma source_only_raise {A} e : source_only (raise (A := A) e).
Proof. intros w1 w2 H. split; trivial. Qed.

Lemma source_only_bind {A B} (c : M A) (k : A -> M B) :
  source_only c -> (forall a, source_only (k a)) -> source_only (bind c k).
Proof.
  intros Hc Hk w1 w2 H. unfold bind.
  destruct (Hc w1 w2 H) as [Ho Hw].
  destruct (c w1) as [o1 w1'], (c w2) as [o2 w2']. simpl in Ho, Hw. subst o2.
  destruct o1 as [a|e|]; auto. now apply Hk.
Qed.

Lemma source_only_print p : source_only (print p).
Proof. intros w1 w2 H. split; trivial. Qed.

Lemma source_only_try_pass {A} (c : M A) : source_only c -> source_only (try_pass c).
Proof.
  intros Hc w1 w2 H. unfold try_pass.
  destruct (Hc w1 w2 H) as [Ho Hw].
  destruct (c w1) as [o1 w1'], (c w2) as [o2 w2']. simpl in Ho, Hw. subst o2.
  destruct o1 as [a|e|]; auto.
Qed.

Lemma source_only_draw_array {A} (draw : rng -> A * rng) size :
  source_only (draw_array draw size).
Proof.
  intros w1 w2 H. unfold draw_array, same_source in *. rewrite H.
  destruct (draws draw (Z.to_nat size) (random_state w2)). split; trivial.
Qed.

Lemma source_only_uniform low high size :
  source_only (np_random_uniform low high size).
Proof.
  unfold np_random_uniform.
  destruct (negb _); [apply source_only_raise|].
  destruct (size <? 0); [apply source_only_raise|apply source_only_draw_array].
Qed.

Lemma source_only_randint low high size :
  source_only (np_random_randint low high size).
Proof.
  unfold np_random_randint.
  destruct (high <=? low); [apply source_only_raise|].
  destruct (size <? 0); [apply source_only_raise|apply source_only_draw_array].
Qed.

Lemma source_only_fill_rows {X A} (draw : X -> M (list A)) xs :
  (forall x, source_only (draw x)) ->
  forall Unthinned, source_only (fill_rows draw xs Unthinned).
Proof.
  intros Hdraw. induction xs as [|x xs IH]; intros u; simpl.
  - apply source_only_ret.
  - apply source_only_bind; [apply Hdraw|]. intros v. destruct u as [u|].
    + apply source_only_bind; [apply source_only_lift|]. intros u'. apply IH.
    + apply IH.
Qed.

Lemma source_only_loop_body {A} (candidates : M (option (ndarray A))) criteria
      blocksize Thinned :
  source_only candidates ->
  source_only (loop_body candidates criteria blocksize Thinned).
Proof.
  intros Hc. unfold loop_body.
  apply source_only_bind; trivial. intros [Unthinned|]; [|apply source_only_raise].
  apply source_only_bind.
  { destruct (_ =? 1); [apply source_only_raise|apply source_only_ret]. }
  intros _. apply source_only_bind; [apply source_only_uniform|]. intros U.
  apply source_only_bind; [apply source_only_lift|]. intros C.
  apply source_only_bind; [apply source_only_lift|]. intros mask.
  apply source_only_bind; [apply source_only_lift|]. intros sel.
  destruct (_ =? 0); [apply source_only_ret|apply source_only_lift].
Qed.

Lemma source_only_while_loop {A} (candidates : M (option (ndarray A))) criteria
      n blocksize fuel :
  source_only candidates ->
  forall Thinned, source_only (while_loop candidates criteria n blocksize fuel Thinned).
Proof.
  intros Hc. induction fuel as [|fuel IH]; intros T; cbn [while_loop];
    destruct (_ <? n); try apply source_only_ret; try apply source_only_lift.
  apply source_only_bind; [now apply source_only_loop_body|exact IH].
Qed.

Lemma source_only_thin {A} (candidates : M (option (ndarray A))) criteria
      n blocksize fuel :
  source_only candidates ->
  source_only (thin candidates criteria n blocksize fuel).
Proof.
  intros Hc. unfold thin.
  apply source_only_bind; [now apply source_only_while_loop|]. intros T.
  apply source_only_bind; [apply source_only_lift|]. intros T'.
  apply source_only_ret.
Qed.

Lemma source_only__sample self n bounds algo blocksize fuel :
  source_only (_sample_spatial_point_process self n bounds algo blocksize fuel).
Proof.
  unfold _sample_spatial_point_process.
  destruct n as [n|]; [|apply source_only_ret].
  destruct bounds as [bounds|]; [|apply source_only_ret].
  destruct (String.eqb algo "thinning"); [|apply source_only_ret].
  destruct (density self) as [f|l|l|a];
    (apply source_only_bind; [apply source_only_lift|]; intros lmax;
     apply source_only_bind;
     [apply source_only_thin|intros r; apply source_only_ret]).
  - apply source_only_fill_rows. intros b. apply source_only_uniform.
  - apply source_only_raise.
  - apply source_only_raise.
  - apply source_only_fill_rows. intros s. apply source_only_randint.
Qed.

Lemma source_only_probe self bounds : source_only (diagnostic_probe self bounds).
Proof.
  unfold diagnostic_probe.
  apply source_only_bind; [apply source_only_print|]. intros _.
  destruct (density self); try apply source_only_ret.
  apply source_only_try_pass.
  apply source_only_bind; [apply source_only_print|]. intros _.
  apply source_only_lift.
Qed.

Lemma source_only_sample self n bounds algo blocksize fuel :
  source_only (sample self n bounds algo blocksize fuel).
Proof.
  unfold sample.
  apply source_only_bind; [apply source_only_probe|]. intros _.
  apply source_only__sample.
Qed.

End SourceOnly.

(** * The claims *)

Section Claims.
Context {RS : RandomSource} {OPT : Optimizer}.

Lemma boundstuple_eq {B} (bounds : list B) :
  fold_left (fun acc i => acc ++ [i]) bounds [] = bounds.
Proof.
  assert (H : forall acc, fold_left (fun acc i => acc ++ [i]) bounds acc = acc ++ bounds).
  { induction bounds as [|b bounds IH]; intros acc; simpl.
    - now rewrite app_nil_r.
    - rewrite IH, <- app_assoc. reflexivity. }
  apply H.
Qed.

Lemma probe_not_callable self bounds w :
  callable (density self) = false ->
  diagnostic_probe self bounds w
  = (Returns tt,
     {| random_state := random_state w; stdout := stdout w ++ [PrintStr "a"] |}).
Proof.
  unfold diagnostic_probe. destruct (density self); simpl; try discriminate;
    reflexivity.
Qed.


(** C6, as the code has it.  When [n] or [bounds] is left at its default,
    or [algo] is not ["thinning"], [sample] raises nothing: after its
    print and probe it returns [None], and the random source is untouched. *)
Theorem sample_without_arguments_returns_none
    self n bounds algo blocksize fuel w w1 :
  n = None \/ bounds = None \/ algo <> "thinning"%string ->
  diagnostic_probe self bounds w = (Returns tt, w1) ->
  sample self n bounds algo blocksize fuel w = (Returns RNone, w1)
  /\ random_state w1 = random_state w.
Proof.
  intros Hcase Hp. split.
  - unfold sample. rewrite (bind_run _ _ _ _ _ Hp).
    unfold _sample_spatial_point_process.
    destruct n as [n|]; trivial. destruct bounds as [bounds|]; trivial.
    destruct Hcase as [H|[H|H]]; try discriminate.
    apply String.eqb_neq in H. now rewrite H.
  - destruct (source_only_probe self bounds w
                {| random_state := random_state w; stdout := [] |} eq_refl)
      as [_ Hs].
    rewrite Hp in Hs. simpl in Hs. rewrite Hs.
    unfold diagnostic_probe, bind, print. simpl.
    destruct (density self); simpl; trivial.
    unfold try_pass, bind, print, lift. simpl.
    now destruct (f _).
Qed.


End Claims.

Section FirstIteration.
Context {RS : RandomSource} {OPT : Optimizer}.

Lemma thin_out_of_fuel {A} (candidates : M (option (ndarray A))) criteria n
      blocksize w :
  0 < n -> thin candidates criteria n blocksize 0 w = (Unfinished, w).
Proof.
  intros Hn. unfold thin, bind. cbn [while_loop]. simpl.
  now replace (0 <? n) with true by (symmetry; apply Z.ltb_lt; lia).
Qed.

Lemma thin_first_block {A} (candidates : M (option (ndarray A))) criteria n
      blocksize fuel w :
  0 < n ->
  thin candidates criteria n blocksize (S fuel) w
  = bind (bind (loop_body candidates criteria blocksize (Arr1 []))
               (while_loop candidates criteria n blocksize fuel))
         (fun Thinned =>
            bind (lift (first_columns Thinned n)) (fun Thinned' => ret (np_T Thinned')))
         w.
Proof.
  intros Hn. unfold thin. cbn [while_loop]. simpl.
  now replace (0 <? n) with true by (symmetry; apply Z.ltb_lt; lia).
Qed.

Lemma thin_candidates_raise {A} (candidates : M (option (ndarray A))) criteria n
      blocksize fuel w e w1 :
  0 < n -> candidates w = (Raises e, w1) ->
  thin candidates criteria n blocksize (S fuel) w = (Raises e, w1).
Proof.
  intros Hn Hc. rewrite thin_first_block by trivial.
  unfold loop_body, bind. now rewrite Hc.
Qed.

Lemma thin_one_dimensional {A} (candidates : M (option (ndarray A))) criteria n
      blocksize fuel w v w1 :
  0 < n -> candidates w = (Returns (Some (Arr1 v)), w1) ->
  thin candidates criteria n blocksize (S fuel) w = (Raises AttributeError, w1).
Proof.
  intros Hn Hc. rewrite thin_first_block by trivial.
  unfold loop_body, bind. now rewrite Hc.
Qed.

Lemma not_returns_of_raises {A} (c : nat -> M A) w e :
  (forall fuel, exists w1, c (S fuel) w = (Raises e, w1)) ->
  (exists w0, c O w = (Unfinished, w0)) ->
  forall fuel r, fst (c fuel w) <> Returns r.
Proof.
  intros HS [w0 H0] [|fuel] r.
  - now rewrite H0.
  - destruct (HS fuel) as [w1 ->]. discriminate.
Qed.

(** C8. A sampling call in one dimension (a callable density with one
    bound pair, or a weight array with one axis; [n] positive, [blocksize]
    not negative, [lmax] computed) draws a first block that is a rank-one
    array, and the assignment to its [T] attribute raises [AttributeError]
    in the first pass through the loop: the call never returns. *)
Theorem one_dimensional_call_raises :
  (forall self f bound n blocksize fuel w w1 lmax,
      density self = DCallable f ->
      0 < n -> 0 <= blocksize -> finite_range bound ->
      diagnostic_probe self (Some [bound]) w = (Returns tt, w1) ->
      lmax_callable self f [bound] = Returns lmax ->
      (exists v w2,
          candidates_callable [bound] blocksize w1 = (Returns (Some (Arr1 v)), w2))
      /\ fst (sample self (Some n) (Some [bound]) "thinning" blocksize (S fuel) w)
         = Raises AttributeError
      /\ forall fuel' r,
          fst (sample self (Some n) (Some [bound]) "thinning" blocksize fuel' w)
          <> Returns r)
  /\ (forall self a s n bounds blocksize fuel w,
         density self = DArray a ->
         shape a = [s] -> (0 < s)%nat -> data a <> [] ->
         0 < n -> 0 <= blocksize ->
         (exists v w2,
             candidates_array a blocksize
               {| random_state := random_state w;
                  stdout := stdout w ++ [PrintStr "a"] |}
             = (Returns (Some (Arr1 v)), w2))
         /\ fst (sample self (Some n) (Some bounds) "thinning" blocksize (S fuel) w)
            = Raises AttributeError
         /\ forall fuel' r,
             fst (sample self (Some n) (Some bounds) "thinning" blocksize fuel' w)
             <> Returns r).
Proof.
  split.
  - intros self f [low high] n blocksize fuel w w1 lmax Hd Hn Hb Hfin Hp Hl.
    destruct (np_random_uniform_run low high blocksize w1 Hfin Hb)
      as (v & w2 & Hv & _).
    assert (Hc : candidates_callable [(low, high)] blocksize w1
                 = (Returns (Some (Arr1 v)), w2)).
    { unfold candidates_callable. simpl. now rewrite (bind_run _ _ _ _ _ Hv). }
    assert (Hrun : forall fuel0,
               sample self (Some n) (Some [(low, high)]) "thinning" blocksize
                      (S fuel0) w = (Raises AttributeError, w2)).
    { intros fuel0. unfold sample. rewrite (bind_run _ _ _ _ _ Hp).
      unfold _sample_spatial_point_process. rewrite Hd. simpl.
      unfold bind at 1, lift at 1. rewrite Hl.
      unfold bind at 1.
      now rewrite (thin_one_dimensional _ _ _ _ _ _ _ _ Hn Hc). }
    split; [eauto|]. split; [now rewrite Hrun|].
    apply not_returns_of_raises with (e := AttributeError).
    + intros fuel0. eauto.
    + exists w1. unfold sample. rewrite (bind_run _ _ _ _ _ Hp).
      unfold _sample_spatial_point_process. rewrite Hd. simpl.
      unfold bind at 1, lift at 1. rewrite Hl.
      unfold bind at 1. now rewrite thin_out_of_fuel.
  - intros self a s n bounds blocksize fuel w Hd Hs Hpos Hne Hn Hb.
    set (w1 := {| random_state := random_state w;
                  stdout := stdout w ++ [PrintStr "a"] |}).
    assert (Hp : diagnostic_probe self (Some bounds) w = (Returns tt, w1)).
    { apply probe_not_callable. now rewrite Hd. }
    destruct (np_random_randint_run s blocksize w1 Hpos Hb) as (v & w2 & Hv & _).
    assert (Hc : candidates_array a blocksize w1 = (Returns (Some (Arr1 v)), w2)).
    { unfold candidates_array. rewrite Hs. simpl.
      now rewrite (bind_run _ _ _ _ _ Hv). }
    destruct (data a) as [|x l] eqn:E; [congruence|].
    assert (Hrun : forall fuel0,
               sample self (Some n) (Some bounds) "thinning" blocksize
                      (S fuel0) w = (Raises AttributeError, w2)).
    { intros fuel0. unfold sample. rewrite (bind_run _ _ _ _ _ Hp).
      unfold _sample_spatial_point_process. rewrite Hd. simpl.
      unfold bind at 1, lift at 1. rewrite E. simpl.
      unfold bind at 1.
      now rewrite (thin_one_dimensional _ _ _ _ _ _ _ _ Hn Hc). }
    split; [eauto|]. split; [now rewrite Hrun|].
    apply not_returns_of_raises with (e := AttributeError).
    + intros fuel0. eauto.
    + exists w1. unfold sample. rewrite (bind_run _ _ _ _ _ Hp).
      unfold _sample_spatial_point_process. rewrite Hd. simpl.
      unfold bind at 1, lift at 1. rewrite E. simpl.
      unfold bind at 1. now rewrite thin_out_of_fuel.
Qed.

(** C10. A list or a tuple passes the [density] setter, so the process is
    constructed; but a sampling call on it ([n] positive, [bounds]
    supplied, a non-empty list so that [np.amax] yields [lmax]) raises
    [AttributeError] in the first pass through the loop, where the
    discrete path reads [self.density.shape], and never returns. *)
Theorem list_density_cannot_be_sampled items kw n bounds blocksize fuel w :
  items <> [] -> 0 < n ->
  forall value d,
    (value = PyList items /\ d = DList items)
    \/ (value = PyTuple items /\ d = DTuple items) ->
    init value (PyDict kw) = Returns {| density := d; density_kwargs := kw |}
    /\ fst (sample {| density := d; density_kwargs := kw |}
                   (Some n) (Some bounds) "thinning" blocksize (S fuel) w)
       = Raises AttributeError
    /\ forall fuel' r,
        fst (sample {| density := d; density_kwargs := kw |}
                    (Some n) (Some bounds) "thinning" blocksize fuel' w)
        <> Returns r.
Proof.
  intros Hne Hn value d Hcase.
  set (self := {| density := d; density_kwargs := kw |}).
  set (w1 := {| random_state := random_state w;
                stdout := stdout w ++ [PrintStr "a"] |}).
  assert (Hp : diagnostic_probe self (Some bounds) w = (Returns tt, w1)).
  { apply probe_not_callable. destruct Hcase as [[_ ->]|[_ ->]]; reflexivity. }
  destruct items as [|x l]; [congruence|].
  assert (Hs : forall fuel0,
             sample self (Some n) (Some bounds) "thinning" blocksize fuel0 w
             = bind (thin (A := Z) (raise AttributeError) (fun _ => Raises TypeError)
                          n blocksize fuel0)
                    (fun r => ret (RInts r)) w1).
  { intros fuel0. unfold sample. rewrite (bind_run _ _ _ _ _ Hp).
    destruct Hcase as [[_ Hd]|[_ Hd]]; subst self; rewrite Hd; reflexivity. }
  assert (Hrun : forall fuel0,
             sample self (Some n) (Some bounds) "thinning" blocksize (S fuel0) w
             = (Raises AttributeError, w1)).
  { intros fuel0. rewrite Hs. unfold bind at 1.
    now rewrite (thin_candidates_raise (raise AttributeError) _ _ _ _ w1
                   AttributeError w1 Hn eq_refl). }
  split; [destruct Hcase as [[-> ->]|[-> ->]]; reflexivity|].
  split; [now rewrite Hrun|].
  apply not_returns_of_raises with (e := AttributeError).
  - intros fuel0. eauto.
  - exists w1. rewrite Hs. unfold bind at 1. now rewrite thin_out_of_fuel.
Qed.

End FirstIteration.

(** * From the loop to the call *)

Section LoopToCall.
Context {RS : RandomSource} {X A : Type}.
Variable P : X -> A -> Prop.
Variable xs : list X.
Variable candidates : M (option (ndarray A)).
Variable criteria : ndarray A -> outcome npvalue.
Variable n blocksize : Z.

Hypothesis candidates_block :
  forall w rows w', candidates w = (Returns (Some (Arr2 rows)), w') ->
                    block_of P xs (ncols rows) rows.

(** When the loop ends, the call yields the first [n] accepted points. *)
Lemma thin_of_loop fuel w Thinned w' :
  0 < n ->
  while_loop candidates criteria n blocksize fuel (Arr1 []) w = (Returns Thinned, w') ->
  thin candidates criteria n blocksize fuel w
  = (Returns (Arr2 (firstn (Z.to_nat n) (accepted_points Thinned))), w')
  /\ (Z.to_nat n <= length (accepted_points Thinned))%nat
  /\ Forall (Forall2 P xs) (accepted_points Thinned).
Proof.
  intros Hn Hloop.
  destruct (while_loop_returns P xs candidates criteria n blocksize candidates_block
              fuel _ _ _ _ (acc_empty P xs) (Forall_nil _) Hloop)
    as (Hacc & Hcount & Hpts & _).
  rewrite (np_len_accepted _ _ _ Hacc) in Hcount. apply Z.ltb_ge in Hcount.
  repeat split; trivial; [|lia].
  unfold thin. rewrite (bind_run _ _ _ _ _ Hloop).
  destruct Hacc as [|rows k Hb]; [simpl in Hcount; lia|].
  destruct (block_columns _ _ _ _ Hb) as [Hk _]. simpl in Hcount.
  unfold bind, lift, ret. simpl.
  replace (map (slice_to n) rows) with (map (firstn (Z.to_nat n)) rows).
  - rewrite (block_firstn _ _ _ _ (Z.to_nat n) Hb); trivial. lia.
  - apply map_ext. intros v. unfold slice_to.
    now replace (0 <=? n) with true by (symmetry; apply Z.leb_le; lia).
Qed.

End LoopToCall.

Section Calls.
Context {RS : RandomSource} {OPT : Optimizer}.

Lemma randint_in_range_pos s (st : rng) : randint_in_range s -> (0 < s)%nat.
Proof. intros H. destruct (H st). lia. Qed.

Lemma candidates_callable_total bounds blocksize w :
  (2 <= length bounds)%nat -> Forall finite_range bounds -> 0 <= blocksize ->
  exists rows w',
    candidates_callable bounds blocksize w = (Returns (Some (Arr2 rows)), w')
    /\ block_of anything bounds (Z.to_nat blocksize) rows.
Proof.
  intros Hd Hfin Hb.
  destruct (candidates_callable_run bounds blocksize w Hd Hfin Hb)
    as (rows & w' & H & Hk).
  exists rows, w'. split; trivial. rewrite <- Hk.
  apply (fill_rows_block anything (fun _ => True)) in H; trivial.
  - intros. apply Forall_forall. intros; exact I.
  - apply Forall_forall. intros; exact I.
Qed.

Lemma candidates_array_total a blocksize w :
  (2 <= length (shape a))%nat -> Forall randint_in_range (shape a) ->
  0 <= blocksize ->
  exists rows w',
    candidates_array a blocksize w = (Returns (Some (Arr2 rows)), w')
    /\ block_of index_within (shape a) (Z.to_nat blocksize) rows.
Proof.
  intros Hd Hrange Hb.
  assert (Hpos : Forall (fun s => 0 < s)%nat (shape a)).
  { eapply Forall_impl; [|exact Hrange]. intros s.
    apply randint_in_range_pos. exact (random_state w). }
  destruct (candidates_array_run a blocksize w Hd Hpos Hb) as (rows & w' & H & Hk).
  exists rows, w'. split; trivial. rewrite <- Hk.
  now apply (candidates_array_block a blocksize w rows w').
Qed.

Lemma criteria_callable_total f g c (bounds : list (float * float)) k rows :
  vectorized f g -> block_of anything bounds k rows ->
  exists ratios,
    criteria_callable f (Scalar c) (Arr2 (columns rows)) = Returns (Vector ratios)
    /\ length ratios = k.
Proof.
  intros Hf Hb. rewrite (criteria_callable_run f g c _ Hf).
  eexists; split; [reflexivity|].
  rewrite length_map. now apply (block_columns _ _ _ _ Hb).
Qed.

Lemma criteria_array_total a lmax k rows :
  well_formed a -> block_of index_within (shape a) k rows ->
  exists ratios,
    criteria_array a lmax (Arr2 (columns rows)) = Returns (Vector ratios)
    /\ length ratios = k.
Proof.
  intros Hwf Hb. destruct (block_columns _ _ _ _ Hb) as [Hk Hpts].
  destruct (criteria_array_run a lmax _ Hwf Hpts) as (ratios & H & Hr).
  exists ratios. split; trivial.
  rewrite <- (Forall2_length Hr). exact Hk.
Qed.



Lemma data_nonempty a (st : rng) :
  well_formed a -> Forall randint_in_range (shape a) -> data a <> [].
Proof.
  unfold well_formed. intros Hwf Hrange Hnil. rewrite Hnil in Hwf. simpl in Hwf.
  assert (H : (0 < fold_right Nat.mul 1 (shape a))%nat).
  { induction Hrange as [|s l Hs _ IH]; simpl; [lia|].
    apply (randint_in_range_pos s st) in Hs. nia. }
  lia.
Qed.



End Calls.

(** * The claims on the concrete environment *)

Section DemoFacts.

Lemma demo_uniform_in_bounds :
  Forall (uniform_in_bounds (RS := Demo.counter_source)) Demo.unit_square.
Proof.
  assert (H : uniform_in_bounds (RS := Demo.counter_source) (0, 1)%float).
  { intros s. unfold within. cbn [fst snd next_uniform Demo.counter_source].
    pose proof (Nat.mod_upper_bound s 8 ltac:(lia)) as Hs.
    destruct (s mod 8)%nat as [|[|[|[|[|[|[|[|k]]]]]]]]; try lia;
      split; reflexivity. }
  unfold Demo.unit_square. constructor; [exact H|].
  constructor; [exact H|]. constructor.
Qed.

Lemma demo_randint_in_range s :
  (0 < s)%nat -> randint_in_range (RS := Demo.counter_source) s.
Proof.
  intros Hs st. unfold index_within. cbn [fst next_randint Demo.counter_source].
  pose proof (Z.mod_pos_bound (Z.of_nat st) (Z.of_nat s - 0) ltac:(lia)). lia.
Qed.

Lemma demo_grid_in_range :
  Forall (randint_in_range (RS := Demo.counter_source)) [2; 2]%nat.
Proof. repeat constructor; apply demo_randint_in_range; lia. Qed.

Lemma demo_strip_in_range :
  Forall (randint_in_range (RS := Demo.counter_source)) (shape Demo.strip).
Proof. repeat constructor; apply demo_randint_in_range; lia. Qed.

Lemma demo_ramp_vectorized : vectorized Demo.ramp Demo.first_coordinate.
Proof. split; reflexivity. Qed.


Lemma demo_finite_square : Forall finite_range Demo.unit_square.
Proof. repeat constructor. Qed.

End DemoFacts.

Lemma sample_without_arguments_returns_none_witness :
  demo_sample (Demo.process (DArray Demo.grid)) None None "thinning" 1000 0 Demo.w0
  = (Returns RNone,
     @Build_world Demo.counter_source 0%nat [PrintStr "a"])
  /\ random_state (@Build_world Demo.counter_source 0%nat [PrintStr "a"])
     = random_state Demo.w0.
Proof.
  apply (sample_without_arguments_returns_none (RS := Demo.counter_source)
           (OPT := Demo.start_optimizer)
           (Demo.process (DArray Demo.grid)) None None "thinning" 1000 0 Demo.w0).
  - left. reflexivity.
  - reflexivity.
Defined.


Lemma one_dimensional_call_raises_witness :
  fst (demo_sample (Demo.process (DCallable Demo.ramp)) (Some 3)
                   (Some [(0, 1)%float]) "thinning" 4 1 Demo.w0)
  = Raises AttributeError
  /\ fst (demo_sample (Demo.process (DArray Demo.line)) (Some 3)
                      (Some [(0, 1)%float]) "thinning" 4 1 Demo.w0)
     = Raises AttributeError.
Proof.
  split.
  - edestruct (proj1 (one_dimensional_call_raises (RS := Demo.counter_source)
                        (OPT := Demo.start_optimizer))
                     (Demo.process (DCallable Demo.ramp)) Demo.ramp (0, 1)%float
                     3 4 0%nat Demo.w0) as (_ & H & _).
    + reflexivity.
    + lia.
    + lia.
    + reflexivity.
    + reflexivity.
    + reflexivity.
    + exact H.
  - edestruct (proj2 (one_dimensional_call_raises (RS := Demo.counter_source)
                        (OPT := Demo.start_optimizer))
                     (Demo.process (DArray Demo.line)) Demo.line 3%nat
                     3 [(0, 1)%float] 4 0%nat Demo.w0) as (_ & H & _).
    + reflexivity.
    + reflexivity.
    + lia.
    + discriminate.
    + lia.
    + lia.
    + exact H.
Defined.

Lemma list_density_cannot_be_sampled_witness :
  (init (PyList [1; 2]%float) (PyDict [])
   = Returns {| density := DList [1; 2]%float; density_kwargs := [] |}
   /\ fst (demo_sample {| density := DList [1; 2]%float; density_kwargs := [] |}
                       (Some 3) (Some Demo.unit_square) "thinning" 4 1 Demo.w0)
      = Raises AttributeError
   /\ forall fuel' r,
       fst (demo_sample {| density := DList [1; 2]%float; density_kwargs := [] |}
                        (Some 3) (Some Demo.unit_square) "thinning" 4 fuel' Demo.w0)
       <> Returns r)
  /\ (init (PyTuple [1; 2]%float) (PyDict [])
      = Returns {| density := DTuple [1; 2]%float; density_kwargs := [] |}
      /\ fst (demo_sample {| density := DTuple [1; 2]%float; density_kwargs := [] |}
                          (Some 3) (Some Demo.unit_square) "thinning" 4 1 Demo.w0)
         = Raises AttributeError
      /\ forall fuel' r,
          fst (demo_sample {| density := DTuple [1; 2]%float; density_kwargs := [] |}
                           (Some 3) (Some Demo.unit_square) "thinning" 4 fuel' Demo.w0)
          <> Returns r).
Proof.
  split.
  - apply (list_density_cannot_be_sampled (RS := Demo.counter_source)
             (OPT := Demo.start_optimizer) [1; 2]%float [] 3 Demo.unit_square 4 0%nat
             Demo.w0).
    + discriminate.
    + lia.
    + left. split; reflexivity.
  - apply (list_density_cannot_be_sampled (RS := Demo.counter_source)
             (OPT := Demo.start_optimizer) [1; 2]%float [] 3 Demo.unit_square 4 0%nat
             Demo.w0).
    + discriminate.
    + lia.
    + right. split; reflexivity.
Defined.

(** ** Where the code departs from the specification *)



(** C6: without [n] and [bounds], and with an unknown [algo], the call
    returns [None]. *)
Lemma missing_arguments_return_none :
  fst (demo_sample (Demo.process (DArray Demo.grid)) None None "thinning" 1000 0
                   Demo.w0)
  = Returns RNone
  /\ fst (demo_sample (Demo.process (DArray Demo.grid)) (Some 3)
                      (Some Demo.unit_square) "metropolis" 1000 0 Demo.w0)
     = Returns RNone.
Proof. split; reflexivity. Qed.


(** C3: line 74 passes the keys of [density_kwargs] to the density as
    positional arguments.  For [density = lambda x, **kw: x[..., 0]] on the
    unit square the objective of the optimiser is the negated density
    ([-0.25] at [(0.25, 0.5)]), the point found is the midpoint and the
    density there is [0.5], which is [lmax] when [density_kwargs] is empty.
    With [density_kwargs = {'scale': 2.0}] the density is called with the
    midpoint and the string ['scale']: the computation of [lmax] raises
    [TypeError], and so does [sample], before the loop. *)
Lemma lmax_call_passes_keys_positionally :
  obind (Demo.ramp (ArgsArray (Arr1 [0.25; 0.5]%float) []))
        (fun v => Returns (np_negative v))
  = Returns (Scalar (-0.25)%float)
  /\ minimize (Optimizer := Demo.start_optimizer)
       (fun x => obind (Demo.ramp (ArgsArray (Arr1 x) []))
                       (fun v => Returns (np_negative v)))
       (map np_mean Demo.unit_square) Demo.unit_square
     = Returns [0.5; 0.5]%float
  /\ Demo.ramp (ArgsArray (Arr1 [0.5; 0.5]%float) []) = Returns (Scalar 0.5%float)
  /\ lmax_callable (OPT := Demo.start_optimizer)
       (Demo.process (DCallable Demo.ramp)) Demo.ramp Demo.unit_square
     = Returns (Scalar 0.5%float)
  /\ lmax_callable (OPT := Demo.start_optimizer)
       {| density := DCallable Demo.ramp;
          density_kwargs := [("scale"%string, 2%float)] |}
       Demo.ramp Demo.unit_square
     = Raises TypeError
  /\ demo_sample {| density := DCallable Demo.ramp;
                    density_kwargs := [("scale"%string, 2%float)] |}
                 (Some 3) (Some Demo.unit_square) "thinning" 4 2 Demo.w0
     = (Raises TypeError,
        @Build_world Demo.counter_source 0%nat
          [PrintStr "a"; PrintBounds Demo.unit_square]).
Proof. repeat split. Qed.

(** * Further properties of the sampler: arguments at the edge *)

Section CallShapes.
Context {RS : RandomSource} {OPT : Optimizer}.

Lemma sample_callable self f n bounds blocksize fuel w w1 lmax :
  density self = DCallable f ->
  diagnostic_probe self (Some bounds) w = (Returns tt, w1) ->
  lmax_callable self f bounds = Returns lmax ->
  sample self (Some n) (Some bounds) "thinning" blocksize fuel w
  = bind (thin (candidates_callable bounds blocksize) (criteria_callable f lmax)
               n blocksize fuel)
         (fun r => ret (RFloats r)) w1.
Proof.
  intros Hd Hp Hl. unfold sample. rewrite (bind_run _ _ _ _ _ Hp).
  unfold _sample_spatial_point_process. rewrite Hd. simpl.
  unfold bind at 1, lift at 1. now rewrite Hl.
Qed.

Lemma sample_array self a n bounds blocksize fuel w lmax :
  density self = DArray a ->
  np_amax (data a) = Returns lmax ->
  sample self (Some n) (Some bounds) "thinning" blocksize fuel w
  = bind (thin (candidates_array a blocksize) (criteria_array a lmax)
               n blocksize fuel)
         (fun r => ret (RInts r))
         {| random_state := random_state w; stdout := stdout w ++ [PrintStr "a"] |}.
Proof.
  intros Hd Hl. unfold sample.
  rewrite (bind_run _ _ _ _ _
             (probe_not_callable self (Some bounds) w ltac:(now rewrite Hd))).
  unfold _sample_spatial_point_process. rewrite Hd. simpl.
  unfold bind at 1, lift at 1. now rewrite Hl.
Qed.

Lemma sample_sequence self l n bounds blocksize fuel w lmax :
  density self = DList l \/ density self = DTuple l ->
  np_amax l = Returns lmax ->
  sample self (Some n) (Some bounds) "thinning" blocksize fuel w
  = bind (thin (A := Z) (raise AttributeError) (fun _ => Raises TypeError)
               n blocksize fuel)
         (fun r => ret (RInts r))
         {| random_state := random_state w; stdout := stdout w ++ [PrintStr "a"] |}.
Proof.
  intros Hd Hl. unfold sample.
  rewrite (bind_run _ _ _ _ _
             (probe_not_callable self (Some bounds) w
                ltac:(now destruct Hd as [-> | ->]))).
  unfold _sample_spatial_point_process.
  destruct Hd as [-> | ->]; simpl; unfold bind at 1, lift at 1; now rewrite Hl.
Qed.

Lemma np_amax_nonempty l : l <> [] -> exists m, np_amax l = Returns m.
Proof. destruct l; [congruence|]. simpl. eauto. Qed.

Lemma thin_nonpositive {A} (candidates : M (option (ndarray A))) criteria n
      blocksize fuel w :
  n <= 0 -> thin candidates criteria n blocksize fuel w = (Raises IndexError, w).
Proof.
  intros Hn. unfold thin, bind.
  assert (E : (np_len (np_T (@Arr1 A [])) <? n) = false)
    by (apply Z.ltb_ge; simpl; lia).
  destruct fuel; cbn [while_loop]; rewrite E; reflexivity.
Qed.

Lemma thin_unbound {A} (candidates : M (option (ndarray A))) criteria n
      blocksize fuel w w1 :
  0 < n -> candidates w = (Returns None, w1) ->
  thin candidates criteria n blocksize (S fuel) w = (Raises UnboundLocalError, w1).
Proof.
  intros Hn Hc. rewrite thin_first_block by trivial.
  unfold loop_body, bind. now rewrite Hc.
Qed.

(** Every sampling call whose [lmax] can be computed is a loop on one of the
    three kinds of density, entered in the world the probe leaves. *)
Lemma sample_cases self n bounds blocksize w w1 :
  diagnostic_probe self (Some bounds) w = (Returns tt, w1) ->
  lmax_computed self bounds ->
  (exists f lmax,
      density self = DCallable f
      /\ forall fuel,
          sample self (Some n) (Some bounds) "thinning" blocksize fuel w
          = bind (thin (candidates_callable bounds blocksize)
                       (criteria_callable f lmax) n blocksize fuel)
                 (fun r => ret (RFloats r)) w1)
  \/ (exists a lmax,
         density self = DArray a
         /\ forall fuel,
             sample self (Some n) (Some bounds) "thinning" blocksize fuel w
             = bind (thin (candidates_array a blocksize) (criteria_array a lmax)
                          n blocksize fuel)
                    (fun r => ret (RInts r)) w1)
  \/ (callable (density self) = false
      /\ (forall a, density self <> DArray a)
      /\ forall fuel,
          sample self (Some n) (Some bounds) "thinning" blocksize fuel w
          = bind (thin (A := Z) (raise AttributeError) (fun _ => Raises TypeError)
                       n blocksize fuel)
                 (fun r => ret (RInts r)) w1).
Proof.
  intros Hp Hl. unfold lmax_computed in Hl.
  destruct (density self) as [f|l|l|a] eqn:Hd.
  - destruct Hl as [lmax Hl]. left. exists f, lmax. split; trivial.
    intros fuel. now apply sample_callable.
  - right. right. split; [reflexivity|]. split; [discriminate|]. intros fuel.
    destruct (np_amax_nonempty l Hl) as [m Hm].
    rewrite (sample_sequence self l n bounds blocksize fuel w m); auto.
    rewrite (probe_not_callable self (Some bounds) w) in Hp by now rewrite Hd.
    now inversion Hp.
  - right. right. split; [reflexivity|]. split; [discriminate|]. intros fuel.
    destruct (np_amax_nonempty l Hl) as [m Hm].
    rewrite (sample_sequence self l n bounds blocksize fuel w m); auto.
    rewrite (probe_not_callable self (Some bounds) w) in Hp by now rewrite Hd.
    now inversion Hp.
  - right. left. destruct (np_amax_nonempty (data a) Hl) as [m Hm].
    exists a, m. split; trivial. intros fuel.
    rewrite (sample_array self a n bounds blocksize fuel w m); auto.
    rewrite (probe_not_callable self (Some bounds) w) in Hp by now rewrite Hd.
    now inversion Hp.
Qed.

(** X3. A request for no points, or for a negative number of them, is not
    answered with an empty matrix: the loop is skipped and the slice
    [Thinned[:, :n]] of the rank-one [np.array([])] raises [IndexError],
    for every kind of density, with nothing drawn from the random source
    after the probe. *)
Theorem nonpositive_n_raises_IndexError self n bounds blocksize fuel w w1 :
  n <= 0 ->
  diagnostic_probe self (Some bounds) w = (Returns tt, w1) ->
  lmax_computed self bounds ->
  sample self (Some n) (Some bounds) "thinning" blocksize fuel w
  = (Raises IndexError, w1).
Proof.
  intros Hn Hp Hl.
  destruct (sample_cases self n bounds blocksize w w1 Hp Hl)
    as [(f & lmax & _ & H)|[(a & lmax & _ & H)|(_ & _ & H)]];
    rewrite H; unfold bind at 1; now rewrite thin_nonpositive.
Qed.

(** X4. A negative [blocksize] makes the first draw of the first block
    fail: the call raises [ValueError] in its first pass, for a callable
    density with a first bound pair of finite range and for a weight array
    with at least one axis. *)
Theorem negative_blocksize_raises_ValueError self n bounds blocksize fuel w w1 :
  0 < n -> blocksize < 0 ->
  diagnostic_probe self (Some bounds) w = (Returns tt, w1) ->
  lmax_computed self bounds ->
  (forall f bound rest,
      density self = DCallable f -> bounds = bound :: rest -> finite_range bound ->
      sample self (Some n) (Some bounds) "thinning" blocksize (S fuel) w
      = (Raises ValueError, w1))
  /\ (forall a,
         density self = DArray a -> shape a <> [] ->
         sample self (Some n) (Some bounds) "thinning" blocksize (S fuel) w
         = (Raises ValueError, w1)).
Proof.
  intros Hn Hb Hp Hl.
  destruct (sample_cases self n bounds blocksize w w1 Hp Hl)
    as [(f & lmax & Hd & H)|[(a & lmax & Hd & H)|(Hc & Ha & H)]]; split;
    try (intros; congruence).
  - intros f' [low high] rest Hd' -> Hfin. rewrite H. unfold bind at 1.
    rewrite (thin_candidates_raise _ _ _ _ _ w1 ValueError w1 Hn); trivial.
    unfold candidates_callable. cbn [fill_rows fst snd]. unfold bind.
    unfold np_random_uniform. unfold finite_range in Hfin. simpl in Hfin.
    rewrite Hfin. simpl.
    now replace (blocksize <? 0) with true by (symmetry; apply Z.ltb_lt; lia).
  - intros a' Hd' Hs. rewrite Hd in Hd'. inversion Hd'; subst a'.
    rewrite H. unfold bind at 1.
    rewrite (thin_candidates_raise _ _ _ _ _ w1 ValueError w1 Hn); trivial.
    unfold candidates_array. destruct (shape a) as [|s rest]; [congruence|].
    cbn [fill_rows]. unfold bind, np_random_randint.
    destruct (Z.of_nat s <=? 0); trivial.
    now replace (blocksize <? 0) with true by (symmetry; apply Z.ltb_lt; lia).
  - intros f' bound rest Hd' _ _. rewrite Hd' in Hc. discriminate.
Qed.

End CallShapes.

Section FirstBlock.
Context {RS : RandomSource} {OPT : Optimizer}.

(** X6. The maximum of an array without entries, and of an empty list or
    tuple, does not exist: [np.amax] raises [ValueError] at line 76, before
    the loop, whatever [n], [bounds] and [blocksize] are; the random source
    is untouched and the one print of [sample] is all that was written. *)
Theorem empty_weights_raise_ValueError self shp n bounds blocksize fuel w :
  density self = DArray {| shape := shp; data := [] |}
  \/ density self = DList [] \/ density self = DTuple [] ->
  sample self (Some n) (Some bounds) "thinning" blocksize fuel w
  = (Raises ValueError,
     {| random_state := random_state w; stdout := stdout w ++ [PrintStr "a"] |}).
Proof.
  intros Hd. unfold sample.
  rewrite (bind_run _ _ _ _ _
             (probe_not_callable self (Some bounds) w
                ltac:(now destruct Hd as [-> |[-> | ->]]))).
  unfold _sample_spatial_point_process.
  destruct Hd as [-> |[-> | ->]]; reflexivity.
Qed.

(** X7. Without an axis the [for] loop of lines 87-91 runs no pass and
    never binds [Unthinned]: for a weight array of rank zero the test of
    line 92 raises [UnboundLocalError] in the first pass of the loop, with
    nothing drawn from the random source. *)
Theorem no_dimension_raises_UnboundLocalError self n bounds blocksize fuel w w1 :
  0 < n ->
  diagnostic_probe self (Some bounds) w = (Returns tt, w1) ->
  lmax_computed self bounds ->
  (exists a, density self = DArray a /\ shape a = []) ->
  sample self (Some n) (Some bounds) "thinning" blocksize (S fuel) w
  = (Raises UnboundLocalError, w1).
Proof.
  intros Hn Hp Hl (a' & Hd' & Hs).
  destruct (sample_cases self n bounds blocksize w w1 Hp Hl)
    as [(f & lmax & Hd & H)|[(a & lmax & Hd & H)|(Hc & Ha & H)]];
    rewrite H; unfold bind at 1.
  - congruence.
  - rewrite Hd in Hd'. inversion Hd'; subst a'.
    rewrite (thin_unbound _ _ _ _ _ w1 w1 Hn); trivial.
    unfold candidates_array. now rewrite Hs.
  - now elim (Ha a').
Qed.

(** X8. A first bound pair whose range [high - low] is infinite or a NaN
    makes the first draw of the first block raise [OverflowError], whatever
    [blocksize] is. *)
Theorem infinite_range_raises_OverflowError
    self f n bound rest blocksize fuel w w1 :
  0 < n ->
  density self = DCallable f ->
  diagnostic_probe self (Some (bound :: rest)) w = (Returns tt, w1) ->
  lmax_computed self (bound :: rest) ->
  PrimFloat.is_finite (PrimFloat.sub (snd bound) (fst bound)) = false ->
  sample self (Some n) (Some (bound :: rest)) "thinning" blocksize (S fuel) w
  = (Raises OverflowError, w1).
Proof.
  intros Hn Hd Hp Hl Hinf. unfold lmax_computed in Hl. rewrite Hd in Hl.
  destruct Hl as [lmax Hl].
  rewrite (sample_callable self f n _ blocksize (S fuel) w w1 lmax Hd Hp Hl).
  unfold bind at 1.
  rewrite (thin_candidates_raise _ _ _ _ _ w1 OverflowError w1 Hn); trivial.
  unfold candidates_callable. cbn [fill_rows]. unfold bind, np_random_uniform.
  now rewrite Hinf.
Qed.

(** X9. Line 74 unpacks the dictionary [density_kwargs] with one star: the
    density receives the point found by the optimiser and then the keys of
    the dictionary as further positional arguments.  With a density that
    takes the point and nothing else positionally, any keyword argument
    given to the constructor therefore makes every sampling call raise
    [TypeError] once the optimiser has returned, before the loop and before
    anything is drawn. *)
Theorem keyword_arguments_break_callable_density
    self f n bounds blocksize fuel w w1 x :
  density self = DCallable f ->
  density_kwargs self <> [] ->
  (forall a extra, extra <> [] -> f (ArgsArray a extra) = Raises TypeError) ->
  minimize (fun x => obind (f (ArgsArray (Arr1 x) []))
                           (fun v => Returns (np_negative v)))
           (map np_mean bounds) bounds = Returns x ->
  diagnostic_probe self (Some bounds) w = (Returns tt, w1) ->
  sample self (Some n) (Some bounds) "thinning" blocksize fuel w
  = (Raises TypeError, w1).
Proof.
  intros Hd Hkw Hf Hmin Hp. unfold sample. rewrite (bind_run _ _ _ _ _ Hp).
  unfold _sample_spatial_point_process. rewrite Hd. simpl.
  unfold bind at 1, lift at 1, lmax_callable.
  rewrite boundstuple_eq, Hmin. simpl.
  rewrite Hf; trivial.
  destruct (density_kwargs self); [congruence|discriminate].
Qed.

End FirstBlock.

(** * The constructor and the descriptions *)

Section Construction.

(** X1. The constructor runs the two setters, [density] first.  It raises
    nothing but [ValueError], and that exactly when the density is not a
    callable, a list, a tuple or an array, or the keyword arguments are not
    a dictionary; otherwise the new object holds the two arguments as they
    were given. *)
Theorem init_validates_arguments density_arg density_kwargs_arg :
  (exists self,
      init density_arg density_kwargs_arg = Returns self
      /\ density_setter density_arg = Returns (density self)
      /\ density_kwargs_arg = PyDict (density_kwargs self)
      /\ match density_arg with
         | PyCallable f => density self = DCallable f
         | PyList l => density self = DList l
         | PyTuple l => density self = DTuple l
         | PyArray a => density self = DArray a
         | PyDict _ | PyNone => False
         end)
  \/ (init density_arg density_kwargs_arg = Raises ValueError
      /\ ((exists items, density_arg = PyDict items) \/ density_arg = PyNone
          \/ forall items, density_kwargs_arg <> PyDict items)).
Proof.
  destruct density_arg as [f|l|l|a|items|];
    try (right; split; [reflexivity|]; eauto; fail);
    (destruct density_kwargs_arg as [f'|l'|l'|a'|items'|];
     try (right; split; [reflexivity|]; right; right; intros; discriminate));
    left; eexists; simpl; repeat split.
Qed.

(** X2. [__str__] returns its sentence, but [__repr__] never returns: its
    template has the fields [{d}] and [{dkw}] while [format] is given the
    keyword arguments [rf] and [rkw], so that the first field raises
    [KeyError] whatever the process holds.  Given under the names of the
    fields, the same two strings would have been put in the template. *)
Theorem repr_raises_KeyError str_density str_kwargs self :
  __repr__ str_density str_kwargs self = Raises KeyError
  /\ str_format "MixedPoissonProcess(density={d}, density_kwargs={dkw})"
                [("d"%string, str_density (density self));
                 ("dkw"%string, str_kwargs (density_kwargs self))]
     = Returns ("MixedPoissonProcess(density=" ++ str_density (density self)
                ++ ", density_kwargs=" ++ str_kwargs (density_kwargs self)
                ++ ")")%string
  /\ __str__ self
     = "Spatial point process with specified density function in multidimensional space."%string.
Proof.
  split; [reflexivity|]. split; reflexivity.
Qed.

End Construction.

(** * What a call writes *)

Section Quiet.
Context {RS : RandomSource} {OPT : Optimizer}.

Lemma quiet_ret {A} (a : A) : quiet (ret a).
Proof. now intros w. Qed.

Lemma quiet_raise {A} e : quiet (raise (A := A) e).
Proof. now intros w. Qed.

Lemma quiet_lift {A} (o : outcome A) : quiet (lift o).
Proof. now intros w. Qed.

Lemma quiet_bind {A B} (c : M A) (k : A -> M B) :
  quiet c -> (forall a, quiet (k a)) -> quiet (bind c k).
Proof.
  intros Hc Hk w. unfold bind. specialize (Hc w).
  destruct (c w) as [[a|e|] w1]; simpl in *; trivial.
  now rewrite (Hk a w1).
Qed.

Lemma quiet_draw_array {A} (draw : rng -> A * rng) size : quiet (draw_array draw size).
Proof. intros w. unfold draw_array. now destruct (draws _ _ _). Qed.

Lemma quiet_uniform low high size : quiet (np_random_uniform low high size).
Proof.
  unfold np_random_uniform. destruct (negb _); [apply quiet_raise|].
  destruct (size <? 0); [apply quiet_raise|apply quiet_draw_array].
Qed.

Lemma quiet_randint low high size : quiet (np_random_randint low high size).
Proof.
  unfold np_random_randint. destruct (high <=? low); [apply quiet_raise|].
  destruct (size <? 0); [apply quiet_raise|apply quiet_draw_array].
Qed.

Lemma quiet_fill_rows {X A} (draw : X -> M (list A)) xs :
  (forall x, quiet (draw x)) -> forall u, quiet (fill_rows draw xs u).
Proof.
  intros Hd. induction xs as [|x xs IH]; intros u; simpl; [apply quiet_ret|].
  apply quiet_bind; trivial. intros v. destruct u as [u|]; trivial.
  apply quiet_bind; [apply quiet_lift|]. intros u'. apply IH.
Qed.

Lemma quiet_loop_body {A} (candidates : M (option (ndarray A))) criteria
      blocksize Thinned :
  quiet candidates -> quiet (loop_body candidates criteria blocksize Thinned).
Proof.
  intros Hc. unfold loop_body. apply quiet_bind; trivial.
  intros [Unthinned|]; [|apply quiet_raise].
  apply quiet_bind; [destruct (_ =? 1); [apply quiet_raise|apply quiet_ret]|].
  intros _. apply quiet_bind; [apply quiet_uniform|]. intros U.
  apply quiet_bind; [apply quiet_lift|]. intros C.
  apply quiet_bind; [apply quiet_lift|]. intros mask.
  apply quiet_bind; [apply quiet_lift|]. intros sel.
  destruct (_ =? 0); [apply quiet_ret|apply quiet_lift].
Qed.

Lemma quiet_while_loop {A} (candidates : M (option (ndarray A))) criteria n
      blocksize fuel :
  quiet candidates ->
  forall Thinned, quiet (while_loop candidates criteria n blocksize fuel Thinned).
Proof.
  intros Hc. induction fuel as [|fuel IH]; intros T; cbn [while_loop];
    destruct (_ <? n); try apply quiet_ret; try apply quiet_lift.
  apply quiet_bind; [now apply quiet_loop_body|]. exact IH.
Qed.

Lemma quiet_thin {A} (candidates : M (option (ndarray A))) criteria n
      blocksize fuel :
  quiet candidates -> quiet (thin candidates criteria n blocksize fuel).
Proof.
  intros Hc. unfold thin. apply quiet_bind; [now apply quiet_while_loop|].
  intros T. apply quiet_bind; [apply quiet_lift|]. intros T'. apply quiet_ret.
Qed.

Lemma quiet__sample self n bounds algo blocksize fuel :
  quiet (_sample_spatial_point_process self n bounds algo blocksize fuel).
Proof.
  unfold _sample_spatial_point_process.
  destruct n as [n|]; [|apply quiet_ret].
  destruct bounds as [bounds|]; [|apply quiet_ret].
  destruct (String.eqb algo "thinning"); [|apply quiet_ret].
  destruct (density self) as [f|l|l|a];
    (apply quiet_bind; [apply quiet_lift|]; intros lmax;
     apply quiet_bind; [|intros r; apply quiet_ret];
     apply quiet_thin).
  - apply quiet_fill_rows. intros x. apply quiet_uniform.
  - apply quiet_raise.
  - apply quiet_raise.
  - apply quiet_fill_rows. intros x. apply quiet_randint.
Qed.

Lemma probe_stdout self bounds w :
  stdout (snd (diagnostic_probe self bounds w))
  = stdout w ++ PrintStr "a"
               :: (if callable (density self)
                   then [PrintBounds (bound_pairs bounds)] else []).
Proof.
  unfold diagnostic_probe, bind, print. simpl.
  destruct (density self) as [f|l|l|a]; simpl; trivial.
  unfold try_pass, bind, print, lift. simpl.
  rewrite <- app_assoc. now destruct (f _).
Qed.

(** X12. Whatever the arguments and whatever the outcome (a matrix, [None],
    an exception, or a loop that is still running), a call of [sample]
    writes to the standard output the string ["a"] and, for a callable
    density, the bound pairs, and nothing else: neither the sampling proper
    nor an exception swallowed by the probe adds or removes a line. *)
Theorem sample_prints_probe_lines_only self n bounds algo blocksize fuel w :
  stdout (snd (sample self n bounds algo blocksize fuel w))
  = stdout w ++ PrintStr "a"
               :: (if callable (density self)
                   then [PrintBounds (bound_pairs bounds)] else []).
Proof.
  unfold sample, bind. rewrite <- probe_stdout.
  destruct (diagnostic_probe self bounds w) as [[[]|e|] w1]; trivial.
  apply quiet__sample.
Qed.

End Quiet.

(** * The passes of the loop, one by one *)

Section FloatRatio.

Lemma is_zero_spec x :
  PrimFloat.is_zero x = true -> exists s, Prim2SF x = S754_zero s.
Proof.
  unfold PrimFloat.is_zero. rewrite eqb_spec. unfold SFeqb.
  change (Prim2SF zero) with (S754_zero false).
  destruct (Prim2SF x) as [s|s| |s m e]; simpl; try discriminate; eauto;
    destruct s; discriminate.
Qed.

(** A threshold that is not negative is below the ratio [x / c] only if
    [x] is neither a zero nor a NaN. *)
Lemma ltb_zero_ratio u x c :
  PrimFloat.leb 0 u = true -> PrimFloat.ltb u (x / c) = true -> nonzero_weight x.
Proof.
  rewrite leb_spec, ltb_spec, div_spec. unfold SFleb, SFltb, SF64div.
  change (Prim2SF 0) with (S754_zero false).
  intros Hu Hr. split.
  - destruct (PrimFloat.is_zero x) eqn:E; trivial.
    apply is_zero_spec in E as [s E]. rewrite E in Hr.
    destruct (Prim2SF u) as [su|su| |su mu eu], (Prim2SF c) as [sc|sc| |sc mc ec];
      simpl in *; try discriminate; destruct su; discriminate.
  - destruct (PrimFloat.is_nan x) eqn:E; trivial.
    apply is_nan_spec in E. rewrite E in Hr. simpl in Hr.
    destruct (Prim2SF u); discriminate.
Qed.

Lemma compress_le {A} mask (v : list A) : (length (compress mask v) <= length mask)%nat.
Proof.
  revert v. induction mask as [|b mask IH]; intros [|x v]; simpl; try lia.
  specialize (IH v). destruct b; simpl; lia.
Qed.

Lemma compress_zip_Forall {B} (R : B -> float -> Prop) (Q : B -> Prop) pts ratios :
  Forall2 R pts ratios ->
  forall U,
    (forall p r u, R p r -> In u U -> PrimFloat.ltb u r = true -> Q p) ->
    Forall Q (compress (zip_with PrimFloat.ltb U ratios) pts).
Proof.
  induction 1 as [|p r pts ratios Hpr _ IH]; intros [|u U] HQ; simpl;
    try constructor.
  destruct (PrimFloat.ltb u r) eqn:E.
  - constructor.
    + apply (HQ p r u); simpl; auto.
    + apply IH. intros p' r' u' Hr Hin. apply HQ; simpl; auto.
  - apply IH. intros p' r' u' Hr Hin. apply HQ; simpl; auto.
Qed.

End FloatRatio.

Section Widths.
Context {RS : RandomSource} {X A : Type}.
Variable draw : X -> M (list A).
Variable k : nat.

Hypothesis draw_length :
  forall x w v w', draw x w = (Returns v, w') -> length v = k.

Lemma fill_rows_some_width xs : forall u w U w',
  atleast_2d u <> [] ->
  fill_rows draw xs (Some u) w = (Returns (Some U), w') ->
  ncols (atleast_2d U) = ncols (atleast_2d u).
Proof.
  induction xs as [|x xs IH]; intros u w U w' Hne H; simpl in H.
  - now inversion H.
  - apply bind_returns in H as (v & w1 & Hv & H).
    apply bind_returns in H as (u' & w2 & Hst & H).
    apply lift_returns in Hst as [Hst ->].
    apply np_vstack_returns in Hst as [-> _].
    apply IH in H.
    + rewrite H. simpl. unfold ncols. now destruct (atleast_2d u).
    + simpl. now destruct (atleast_2d u).
Qed.

(** Every block has [k] columns: the first row has, and [vstack] accepts
    only rows of the same length. *)
Lemma fill_rows_width xs w rows w' :
  fill_rows draw xs None w = (Returns (Some (Arr2 rows)), w') -> ncols rows = k.
Proof.
  destruct xs as [|x xs]; simpl; intros H; [discriminate|].
  apply bind_returns in H as (v & w1 & Hv & H).
  apply fill_rows_some_width in H; [|discriminate].
  simpl in H. rewrite H. unfold ncols. simpl. eapply draw_length; eassumption.
Qed.

End Widths.

Section Shapes.
Context {RS : RandomSource}.

Lemma candidates_callable_shape bounds blocksize w rows w' :
  candidates_callable bounds blocksize w = (Returns (Some (Arr2 rows)), w') ->
  block_of anything bounds (Z.to_nat blocksize) rows.
Proof.
  intros H.
  assert (Hk : ncols rows = Z.to_nat blocksize).
  { apply (fill_rows_width _ (Z.to_nat blocksize)) in H; trivial.
    intros x w0 v w1 Hv. now apply np_random_uniform_returns in Hv. }
  rewrite <- Hk.
  apply (fill_rows_block anything (fun _ => True)) in H; trivial.
  - intros. apply Forall_forall. intros; exact I.
  - apply Forall_forall. intros; exact I.
Qed.

Lemma candidates_array_shape a blocksize w rows w' :
  candidates_array a blocksize w = (Returns (Some (Arr2 rows)), w') ->
  block_of anything (shape a) (Z.to_nat blocksize) rows.
Proof.
  intros H.
  assert (Hk : ncols rows = Z.to_nat blocksize).
  { apply (fill_rows_width _ (Z.to_nat blocksize)) in H; trivial.
    intros x w0 v w1 Hv. now apply np_random_randint_returns in Hv. }
  rewrite <- Hk.
  apply (fill_rows_block anything (fun _ => True)) in H; trivial.
  - intros. apply Forall_forall. intros; exact I.
  - apply Forall_forall. intros; exact I.
Qed.

End Shapes.

Section LoopTrace.
Context {RS : RandomSource} {X A : Type}.
Variable xs : list X.
Variable candidates : M (option (ndarray A)).
Variable criteria : ndarray A -> outcome npvalue.
Variable blocksize : Z.

Hypothesis candidates_shape :
  forall w rows w', candidates w = (Returns (Some (Arr2 rows)), w') ->
                    block_of anything xs (Z.to_nat blocksize) rows.

Lemma candidates_any_block w rows w' :
  candidates w = (Returns (Some (Arr2 rows)), w') ->
  block_of anything xs (ncols rows) rows.
Proof.
  intros H. apply candidates_shape in H. now rewrite (block_ncols _ _ _ _ H).
Qed.

(** What one pass that returns has done. *)
Lemma loop_body_step Thinned w Thinned' w' :
  accumulator anything xs Thinned ->
  loop_body candidates criteria blocksize Thinned w = (Returns Thinned', w') ->
  exists rows w1 U Criteria mask,
    candidates w = (Returns (Some (Arr2 rows)), w1)
    /\ np_random_uniform 0%float 1%float blocksize w1 = (Returns U, w')
    /\ criteria (Arr2 (columns rows)) = Returns Criteria
    /\ np_less U Criteria = Returns mask
    /\ length mask = Z.to_nat blocksize
    /\ accumulator anything xs Thinned'
    /\ accepted_points Thinned'
       = accepted_points Thinned ++ compress mask (columns rows).
Proof.
  intros Hacc H.
  apply loop_body_returns in H
    as (rows & w1 & U & C & mask & Hc & HU & HC & Hm & Hl & H).
  pose proof (candidates_shape _ _ _ Hc) as Hb.
  rewrite (block_ncols _ _ _ _ Hb) in Hl.
  destruct (block_compress _ _ _ _ mask Hb Hl) as [Hsel Hcols].
  destruct (append_accepted _ _ _ _ _ w' Hacc Hsel) as (T & HT & HaccT & Hpts).
  rewrite HT in H. inversion H; subst T.
  exists rows, w1, U, C, mask. repeat split; trivial.
  now rewrite Hpts, Hcols.
Qed.

Section Counting.
Variable n : Z.

(** A pass adds at most [blocksize] points, and no pass is made once [n]
    points are there. *)
Lemma while_loop_count fuel : forall Thinned w Thinned' w',
  accumulator anything xs Thinned ->
  while_loop candidates criteria n blocksize fuel Thinned w = (Returns Thinned', w') ->
  accumulator anything xs Thinned'
  /\ n <= Z.of_nat (length (accepted_points Thinned'))
  /\ (length (accepted_points Thinned')
      <= length (accepted_points Thinned) + fuel * Z.to_nat blocksize)%nat
  /\ (Z.of_nat (length (accepted_points Thinned)) < n + Z.of_nat (Z.to_nat blocksize) ->
      Z.of_nat (length (accepted_points Thinned')) < n + Z.of_nat (Z.to_nat blocksize))
  /\ exists more, accepted_points Thinned' = accepted_points Thinned ++ more.
Proof.
  induction fuel as [|fuel IH]; intros T w T' w' Hacc H; cbn [while_loop] in H;
    rewrite (np_len_accepted _ _ _ Hacc) in H;
    destruct (Z.ltb_spec (Z.of_nat (length (accepted_points T))) n) as [Hlt|Hge];
    try discriminate.
  - inversion H; subst. repeat split; trivial; try lia.
    exists []. now rewrite app_nil_r.
  - apply bind_returns in H as (T1 & w1 & Hb & H).
    destruct (loop_body_step _ _ _ _ Hacc Hb)
      as (rows & w0 & U & C & mask & _ & _ & _ & _ & Hl & Hacc1 & Hpts).
    destruct (IH _ _ _ _ Hacc1 H) as (Hacc' & Hn & Hcount & Hsurplus & more & Hmore).
    pose proof (compress_le mask (columns rows)) as Hle.
    rewrite Hpts, length_app in Hcount, Hsurplus.
    repeat split; trivial.
    + simpl. lia.
    + intros _. apply Hsurplus. lia.
    + exists (compress mask (columns rows) ++ more).
      now rewrite Hmore, Hpts, app_assoc.
  - inversion H; subst. repeat split; trivial; try lia.
    exists []. now rewrite app_nil_r.
Qed.

End Counting.

(** The loop for [n2] passes through the state in which the loop for a
    smaller [n1] ends. *)
Lemma while_loop_extend n1 n2 fuel1 : forall fuel2 Thinned w T1 w1 T2 w2,
  n1 <= n2 ->
  while_loop candidates criteria n1 blocksize fuel1 Thinned w = (Returns T1, w1) ->
  while_loop candidates criteria n2 blocksize fuel2 Thinned w = (Returns T2, w2) ->
  while_loop candidates criteria n2 blocksize fuel2 T1 w1 = (Returns T2, w2).
Proof.
  induction fuel1 as [|fuel1 IH]; intros fuel2 T w T1 w1 T2 w2 Hn H1 H2;
    cbn [while_loop] in H1;
    destruct (Z.ltb_spec (np_len (np_T T)) n1) as [Hlt|Hge]; try discriminate;
    try (inversion H1; subst; exact H2).
  apply bind_returns in H1 as (T' & w' & Hb & H1).
  destruct fuel2 as [|fuel2]; cbn [while_loop] in H2;
    destruct (Z.ltb_spec (np_len (np_T T)) n2) as [Hlt2|Hge2];
    try discriminate; try lia.
  rewrite (bind_run _ _ _ _ _ Hb) in H2.
  apply (while_loop_fuel _ _ _ _ fuel2); [|discriminate|lia].
  now apply (IH fuel2 T' w').
Qed.

Section Selection.
Variable n : Z.
Variable Q : list A -> Prop.

Hypothesis thresholds : uniform_in_bounds (0, 1)%float.
Hypothesis accept_Q :
  forall rows U Criteria mask,
    block_of anything xs (Z.to_nat blocksize) rows ->
    length U = Z.to_nat blocksize ->
    Forall (within (0, 1)%float) U ->
    criteria (Arr2 (columns rows)) = Returns Criteria ->
    np_less U Criteria = Returns mask ->
    Forall Q (compress mask (columns rows)).

Lemma while_loop_Forall fuel : forall Thinned w Thinned' w',
  accumulator anything xs Thinned ->
  Forall Q (accepted_points Thinned) ->
  while_loop candidates criteria n blocksize fuel Thinned w = (Returns Thinned', w') ->
  Forall Q (accepted_points Thinned').
Proof.
  induction fuel as [|fuel IH]; intros T w T' w' Hacc HQ H; cbn [while_loop] in H;
    destruct (np_len (np_T T) <? n); try discriminate;
    try (inversion H; subst; exact HQ).
  apply bind_returns in H as (T1 & w1 & Hb & H).
  destruct (loop_body_step _ _ _ _ Hacc Hb)
    as (rows & w0 & U & C & mask & Hc & HU & HC & Hm & Hl & Hacc1 & Hpts).
  apply (IH _ _ _ _ Hacc1) in H; trivial.
  rewrite Hpts. apply Forall_app. split; trivial.
  apply (accept_Q rows U C mask); trivial.
  - now apply candidates_shape in Hc.
  - now apply np_random_uniform_returns in HU.
  - exact (np_random_uniform_within (0, 1)%float blocksize w0 U w1 thresholds HU).
Qed.

End Selection.

End LoopTrace.

(** * What a call that returned has done *)

Section Returned.
Context {RS : RandomSource} {OPT : Optimizer}.

Lemma thin_returns_inv {X A} (xs : list X) (candidates : M (option (ndarray A)))
      criteria n blocksize fuel w r w' :
  (forall w rows w', candidates w = (Returns (Some (Arr2 rows)), w') ->
                     block_of anything xs (Z.to_nat blocksize) rows) ->
  thin candidates criteria n blocksize fuel w = (Returns r, w') ->
  0 < n
  /\ exists Thinned,
      while_loop candidates criteria n blocksize fuel (Arr1 []) w = (Returns Thinned, w')
      /\ r = Arr2 (firstn (Z.to_nat n) (accepted_points Thinned)).
Proof.
  intros Hshape H.
  assert (Hn : 0 < n).
  { destruct (Z.lt_ge_cases 0 n) as [Hn|Hn]; trivial.
    rewrite thin_nonpositive in H by lia. discriminate. }
  split; trivial. pose proof H as H0. unfold thin in H.
  apply bind_returns in H as (T & w1 & Hloop & H).
  apply bind_returns in H as (T' & w2 & Hcols & H).
  apply lift_returns in Hcols as [_ ->]. inversion H; subst w1.
  destruct (thin_of_loop anything xs candidates criteria n blocksize
              (candidates_any_block xs candidates blocksize Hshape)
              fuel w T w' Hn Hloop) as (Hthin & _).
  rewrite Hthin in H0. inversion H0. exists T. split; congruence.
Qed.

Lemma sample_returns_inv self n bounds blocksize fuel w r w' :
  sample self (Some n) (Some bounds) "thinning" blocksize fuel w = (Returns r, w') ->
  0 < n
  /\ exists w1,
      diagnostic_probe self (Some bounds) w = (Returns tt, w1)
      /\ ((exists f lmax Thinned,
             density self = DCallable f
             /\ lmax_callable self f bounds = Returns lmax
             /\ while_loop (candidates_callable bounds blocksize)
                           (criteria_callable f lmax) n blocksize fuel (Arr1 []) w1
                = (Returns Thinned, w')
             /\ r = RFloats (Arr2 (firstn (Z.to_nat n) (accepted_points Thinned))))
          \/ (exists a lmax Thinned,
                 density self = DArray a
                 /\ np_amax (data a) = Returns lmax
                 /\ while_loop (candidates_array a blocksize)
                               (criteria_array a lmax) n blocksize fuel (Arr1 []) w1
                    = (Returns Thinned, w')
                 /\ r = RInts (Arr2 (firstn (Z.to_nat n) (accepted_points Thinned))))).
Proof.
  intros H. unfold sample in H.
  apply bind_returns in H as ([] & w1 & Hp & H).
  unfold _sample_spatial_point_process in H. simpl in H.
  destruct (density self) as [f|l|l|a] eqn:Hd;
    apply bind_returns in H as (lmax & w2 & Hl & H);
    apply lift_returns in Hl as [Hl ->];
    apply bind_returns in H as (m & w3 & Ht & H);
    inversion H; subst r w3; clear H.
  - apply (thin_returns_inv bounds) in Ht as (Hn & T & Hloop & ->);
      [|apply candidates_callable_shape].
    split; trivial. exists w1. split; trivial. left. exists f, lmax, T. auto.
  - exfalso.
    destruct (Z.lt_ge_cases 0 n) as [Hn|Hn];
      [|rewrite thin_nonpositive in Ht by lia; discriminate].
    destruct fuel;
      [rewrite thin_out_of_fuel in Ht by trivial; discriminate|].
    rewrite (thin_candidates_raise _ _ _ _ _ w1 AttributeError w1 Hn) in Ht by trivial.
    discriminate.
  - exfalso.
    destruct (Z.lt_ge_cases 0 n) as [Hn|Hn];
      [|rewrite thin_nonpositive in Ht by lia; discriminate].
    destruct fuel;
      [rewrite thin_out_of_fuel in Ht by trivial; discriminate|].
    rewrite (thin_candidates_raise _ _ _ _ _ w1 AttributeError w1 Hn) in Ht by trivial.
    discriminate.
  - apply (thin_returns_inv (shape a)) in Ht as (Hn & T & Hloop & ->);
      [|apply candidates_array_shape].
    split; trivial. exists w1. split; trivial. right. exists a, lmax, T. auto.
Qed.

(** X11. A call returns a matrix only if it was asked for at least one
    point, with a positive [blocksize], and has made at least
    [n / blocksize] passes through the loop: a pass contributes at most
    [blocksize] points, so a call that returned within [fuel] passes has
    [n <= fuel * blocksize]. *)
Theorem returned_sample_made_enough_passes self n bounds blocksize fuel w r w' :
  sample self (Some n) (Some bounds) "thinning" blocksize fuel w = (Returns r, w') ->
  0 < n /\ 0 < blocksize /\ n <= Z.of_nat fuel * blocksize.
Proof.
  intros H.
  assert (Hcount : 0 < n /\ n <= Z.of_nat (fuel * Z.to_nat blocksize)).
  { apply sample_returns_inv in H
      as (Hn & w1 & _ & [(f & lmax & T & _ & _ & Hloop & _)
                        |(a & lmax & T & _ & _ & Hloop & _)]);
      split; trivial.
    - apply (while_loop_count bounds) in Hloop as (_ & Hge & Hle & _);
        [|apply candidates_callable_shape|constructor].
      simpl in Hle. lia.
    - apply (while_loop_count (shape a)) in Hloop as (_ & Hge & Hle & _);
        [|apply candidates_array_shape|constructor].
      simpl in Hle. lia. }
  destruct Hcount as [Hn Hle]. rewrite Nat2Z.inj_mul in Hle.
  destruct (Z.lt_ge_cases 0 blocksize) as [Hb|Hb].
  - rewrite Z2Nat.id in Hle by lia. auto.
  - replace (Z.to_nat blocksize) with 0%nat in Hle by lia. lia.
Qed.

(** X13. The loop makes no pass once [n] points are there, so that it ends
    with at least [n] and fewer than [n + blocksize] accepted points: the
    truncation of line 107 discards fewer than [blocksize] of them, and the
    points the call returns are the accepted ones but for those. *)
Theorem loop_ends_with_less_than_a_block_to_spare n blocksize fuel :
  0 < n ->
  (forall bounds f lmax w Thinned w',
      while_loop (candidates_callable bounds blocksize) (criteria_callable f lmax)
                 n blocksize fuel (Arr1 []) w = (Returns Thinned, w') ->
      n <= Z.of_nat (length (accepted_points Thinned)) < n + blocksize)
  /\ (forall a lmax w Thinned w',
         while_loop (candidates_array a blocksize) (criteria_array a lmax)
                    n blocksize fuel (Arr1 []) w = (Returns Thinned, w') ->
         n <= Z.of_nat (length (accepted_points Thinned)) < n + blocksize).
Proof.
  intros Hn.
  split.
  - intros bounds f lmax w T w' Hloop.
    apply (while_loop_count bounds) in Hloop as (_ & Hge & _ & Hlt & _);
      [|apply candidates_callable_shape|constructor].
    simpl in Hlt. lia.
  - intros a lmax w T w' Hloop.
    apply (while_loop_count (shape a)) in Hloop as (_ & Hge & _ & Hlt & _);
      [|apply candidates_array_shape|constructor].
    simpl in Hlt. lia.
Qed.

End Returned.

(** * Which candidates can be returned, and how calls compare *)

Section Selected.
Context {RS : RandomSource} {OPT : Optimizer}.

Lemma criteria_array_ratios a lmax pts C :
  criteria_array a lmax (Arr2 pts) = Returns C ->
  exists ratios,
    C = Vector ratios
    /\ Forall2 (fun p r => exists x, getitem a p = Returns x
                                     /\ r = PrimFloat.div x lmax) pts ratios.
Proof.
  unfold criteria_array. intros H.
  apply obind_returns in H as (c & Hc & H). inversion H; subst C; clear H.
  exists c. split; trivial. apply omap_returns in Hc.
  induction Hc as [|p r pts ratios Hp _ IH]; constructor; trivial.
  rewrite getitem_weights_over in Hp.
  apply obind_returns in Hp as (x & Hx & Hr). inversion Hr. eauto.
Qed.

Lemma accept_nonzero {B} (R : B -> float -> Prop) (Q : B -> Prop) k pts U ratios mask :
  (forall p r u, R p r -> PrimFloat.leb 0 u = true ->
                 PrimFloat.ltb u r = true -> Q p) ->
  length pts = k -> length U = k ->
  Forall (within (0, 1)%float) U ->
  Forall2 R pts ratios ->
  np_less U (Vector ratios) = Returns mask ->
  Forall Q (compress mask pts).
Proof.
  intros HQ Hk HlU HU HR Hm.
  rewrite np_less_run in Hm by (rewrite <- (Forall2_length HR); congruence).
  inversion Hm; subst mask.
  apply (compress_zip_Forall R Q _ _ HR). intros p r u Hr Hin.
  apply (HQ p r u Hr). rewrite Forall_forall in HU. now destruct (HU u Hin).
Qed.

(** X10. Candidates whose weight is a zero or a NaN are never returned,
    whatever [lmax] is, as long as the thresholds are not negative (as
    numpy documents of [uniform(0, 1)]).  For a weight array every index
    tuple returned has an entry in the array, which is neither a zero nor a
    NaN; for a callable density evaluated point by point, the density is
    neither a zero nor a NaN at any point returned. *)
Theorem zero_weight_never_returned self n bounds blocksize fuel w :
  uniform_in_bounds (0, 1)%float ->
  (forall a points w',
      density self = DArray a ->
      sample self (Some n) (Some bounds) "thinning" blocksize fuel w
      = (Returns (RInts (Arr2 points)), w') ->
      Forall (fun p => exists x, getitem a p = Returns x /\ nonzero_weight x) points)
  /\ (forall f g c points w',
         density self = DCallable f -> vectorized f g ->
         lmax_callable self f bounds = Returns (Scalar c) ->
         sample self (Some n) (Some bounds) "thinning" blocksize fuel w
         = (Returns (RFloats (Arr2 points)), w') ->
         Forall (fun p => nonzero_weight (g p)) points).
Proof.
  intros Hthr. split.
  - intros a points w' Hd H.
    apply sample_returns_inv in H
      as (Hn & w1 & _ & [(f & lmax & T & Hd' & _)
                        |(a' & lmax & T & Hd' & _ & Hloop & Heq)]);
      [congruence|].
    rewrite Hd in Hd'. inversion Hd'; subst a'. inversion Heq; subst points.
    apply firstn_Forall.
    set (Q := fun p => exists x, getitem a p = Returns x /\ nonzero_weight x).
    assert (HQ : forall rows U C mask,
               block_of anything (shape a) (Z.to_nat blocksize) rows ->
               length U = Z.to_nat blocksize ->
               Forall (within (0, 1)%float) U ->
               criteria_array a lmax (Arr2 (columns rows)) = Returns C ->
               np_less U C = Returns mask ->
               Forall Q (compress mask (columns rows))).
    { intros rows U C mask Hb HlU HU HC Hm.
      apply criteria_array_ratios in HC as (ratios & -> & HR).
      destruct (block_columns _ _ _ _ Hb) as [Hk _].
      refine (accept_nonzero _ Q _ _ U ratios mask _ Hk HlU HU HR Hm).
      intros p r u (x & Hx & ->) Hu Hlt. exists x. split; trivial.
      exact (ltb_zero_ratio u x lmax Hu Hlt). }
    exact (while_loop_Forall (shape a) (candidates_array a blocksize)
             (criteria_array a lmax) blocksize (candidates_array_shape a blocksize)
             n Q Hthr HQ fuel (Arr1 []) w1 T w'
             (acc_empty _ _) (Forall_nil _) Hloop).
  - intros f g c points w' Hd Hf Hl H.
    apply sample_returns_inv in H
      as (Hn & w1 & _ & [(f' & lmax & T & Hd' & Hl' & Hloop & Heq)
                        |(a' & lmax & T & Hd' & _)]);
      [|congruence].
    rewrite Hd in Hd'. inversion Hd'; subst f'.
    rewrite Hl in Hl'. inversion Hl'; subst lmax. inversion Heq; subst points.
    apply firstn_Forall.
    set (Q := fun p => nonzero_weight (g p)).
    assert (HQ : forall rows U C mask,
               block_of anything bounds (Z.to_nat blocksize) rows ->
               length U = Z.to_nat blocksize ->
               Forall (within (0, 1)%float) U ->
               criteria_callable f (Scalar c) (Arr2 (columns rows)) = Returns C ->
               np_less U C = Returns mask ->
               Forall Q (compress mask (columns rows))).
    { intros rows U C mask Hb HlU HU HC Hm.
      rewrite (criteria_callable_run f g c _ Hf) in HC. inversion HC; subst C.
      destruct (block_columns _ _ _ _ Hb) as [Hk _].
      refine (accept_nonzero (fun p r => r = PrimFloat.div (g p) c) Q _ _ U _ mask
                _ Hk HlU HU _ Hm).
      - intros p r u -> Hu Hlt. exact (ltb_zero_ratio u (g p) c Hu Hlt).
      - clear. induction (columns rows); simpl; constructor; trivial. }
    exact (while_loop_Forall bounds (candidates_callable bounds blocksize)
             (criteria_callable f (Scalar c)) blocksize
             (candidates_callable_shape bounds blocksize)
             n Q Hthr HQ fuel (Arr1 []) w1 T w'
             (acc_empty _ _) (Forall_nil _) Hloop).
Qed.

(** X14. Asking for fewer points gives the beginning of the answer to
    asking for more: two calls that differ in [n] only and start from the
    same world draw the same blocks, so that the matrix returned for the
    smaller [n] consists of the first rows of the matrix returned for the
    larger one. *)
Theorem smaller_sample_is_prefix
    self n1 n2 bounds blocksize fuel1 fuel2 w r1 w1 r2 w2 :
  n1 <= n2 ->
  sample self (Some n1) (Some bounds) "thinning" blocksize fuel1 w = (Returns r1, w1) ->
  sample self (Some n2) (Some bounds) "thinning" blocksize fuel2 w = (Returns r2, w2) ->
  r1 = first_rows (Z.to_nat n1) r2.
Proof.
  intros Hn H1 H2.
  assert (Hfirst : forall {B} (l more : list B),
             n1 <= Z.of_nat (length l) ->
             firstn (Z.to_nat n1) l
             = firstn (Z.to_nat n1) (firstn (Z.to_nat n2) (l ++ more))).
  { intros B l more Hl. rewrite firstn_firstn.
    replace (Nat.min (Z.to_nat n1) (Z.to_nat n2)) with (Z.to_nat n1) by lia.
    rewrite firstn_app.
    replace (Z.to_nat n1 - length l)%nat with 0%nat by lia.
    simpl. now rewrite app_nil_r. }
  apply sample_returns_inv in H1
    as (Hn1 & u1 & Hp1 & [(f1 & l1 & T1 & Hd1 & Hl1 & Hloop1 & ->)
                         |(a1 & l1 & T1 & Hd1 & Hl1 & Hloop1 & ->)]);
    apply sample_returns_inv in H2
      as (Hn2 & u2 & Hp2 & [(f2 & l2 & T2 & Hd2 & Hl2 & Hloop2 & ->)
                           |(a2 & l2 & T2 & Hd2 & Hl2 & Hloop2 & ->)]);
    try congruence;
    rewrite Hp1 in Hp2; inversion Hp2; subst u2;
    rewrite Hd1 in Hd2; inversion Hd2; subst;
    rewrite Hl1 in Hl2; inversion Hl2; subst l2.
  - pose proof (while_loop_extend _ _ _ n1 n2 fuel1 fuel2 _ _ _ _ _ _
                  Hn Hloop1 Hloop2) as Hext.
    apply (while_loop_count bounds) in Hloop1 as (Hacc1 & Hge1 & _);
      [|apply candidates_callable_shape|constructor].
    apply (while_loop_count bounds) in Hext as (_ & _ & _ & _ & more & ->);
      [|apply candidates_callable_shape|exact Hacc1].
    simpl. do 2 f_equal. now apply Hfirst.
  - pose proof (while_loop_extend _ _ _ n1 n2 fuel1 fuel2 _ _ _ _ _ _
                  Hn Hloop1 Hloop2) as Hext.
    apply (while_loop_count (shape a2)) in Hloop1 as (Hacc1 & Hge1 & _);
      [|apply candidates_array_shape|constructor].
    apply (while_loop_count (shape a2)) in Hext as (_ & _ & _ & _ & more & ->);
      [|apply candidates_array_shape|exact Hacc1].
    simpl. do 2 f_equal. now apply Hfirst.
Qed.

(** X5. With [blocksize = 0] every block is empty: in two or more
    dimensions the call raises nothing, accepts nothing and never returns,
    whatever the density. *)
Theorem zero_blocksize_never_returns self n bounds fuel w :
  0 < n ->
  (forall f g c w1,
      density self = DCallable f -> vectorized f g ->
      lmax_callable self f bounds = Returns (Scalar c) ->
      diagnostic_probe self (Some bounds) w = (Returns tt, w1) ->
      (2 <= length bounds)%nat -> Forall finite_range bounds ->
      fst (sample self (Some n) (Some bounds) "thinning" 0 fuel w) = Unfinished)
  /\ (forall a,
         density self = DArray a -> well_formed a ->
         (2 <= length (shape a))%nat -> Forall randint_in_range (shape a) ->
         fst (sample self (Some n) (Some bounds) "thinning" 0 fuel w) = Unfinished).
Proof.
  intros Hn. split.
  - intros f g c w1 Hd Hf Hl Hp Hrank Hfin.
    rewrite (sample_callable self f n bounds 0 fuel w w1 (Scalar c) Hd Hp Hl).
    destruct (while_loop_progress anything bounds
                (candidates_callable bounds 0)
                (criteria_callable f (Scalar c)) n 0 (Z.le_refl 0)
                (fun w0 => candidates_callable_total bounds 0 w0 Hrank Hfin (Z.le_refl 0))
                (fun rows Hrows => criteria_callable_total f g c bounds _ rows Hf Hrows)
                fuel (Arr1 []) w1 (acc_empty _ _)) as [Hu|(T & w2 & Hloop)].
    + unfold bind at 1, thin, bind at 1.
      destruct (while_loop _ _ n 0 fuel (Arr1 []) w1) as [o w2].
      simpl in Hu. now subst o.
    + exfalso.
      apply (while_loop_count bounds) in Hloop as (_ & Hge & Hle & _);
        [|apply candidates_callable_shape|constructor].
      simpl in Hle. lia.
  - intros a Hd Hwf Hrank Hrange.
    destruct (np_amax_nonempty (data a)
                (data_nonempty a (random_state w) Hwf Hrange)) as [lmax Hl].
    rewrite (sample_array self a n bounds 0 fuel w lmax Hd Hl).
    match goal with |- context [bind _ _ ?w0] => set (w1 := w0) end.
    destruct (while_loop_progress index_within (shape a)
                (candidates_array a 0)
                (criteria_array a lmax) n 0 (Z.le_refl 0)
                (fun w0 => candidates_array_total a 0 w0 Hrank Hrange (Z.le_refl 0))
                (fun rows Hrows => criteria_array_total a lmax _ rows Hwf Hrows)
                fuel (Arr1 []) w1 (acc_empty _ _)) as [Hu|(T & w2 & Hloop)].
    + unfold bind at 1, thin, bind at 1.
      destruct (while_loop _ _ n 0 fuel (Arr1 []) w1) as [o w2].
      simpl in Hu. now subst o.
    + exfalso.
      apply (while_loop_count (shape a)) in Hloop as (_ & Hge & Hle & _);
        [|apply candidates_array_shape|constructor].
      simpl in Hle. lia.
Qed.

End Selected.

(** * A NaN among the weights *)

Section NaNWeights.
Context {RS : RandomSource} {OPT : Optimizer}.

Lemma leb_nan_l z x : PrimFloat.is_nan z = true -> PrimFloat.leb z x = false.
Proof.
  rewrite is_nan_spec, leb_spec. intros ->. reflexivity.
Qed.







End NaNWeights.

(** * The ratios of a block and the passes of a run *)

Section RatioFacts.

Lemma zip_with_repeat_l {B C D} (f : B -> C -> D) x w :
  zip_with f (repeat x (length w)) w = map (f x) w.
Proof. induction w as [|y w IH]; simpl; congruence. Qed.

Lemma zip_with_repeat_r {B C D} (f : B -> C -> D) v y :
  zip_with f v (repeat y (length v)) = map (fun x => f x y) v.
Proof. induction v as [|x v IH]; simpl; congruence. Qed.

Lemma zip_with_repeat {B C D} (f : B -> C -> D) x y k :
  zip_with f (repeat x k) (repeat y k) = repeat (f x y) k.
Proof. induction k as [|k IH]; simpl; congruence. Qed.

Lemma entries_length v k l : entries v k = Some l -> length l = k.
Proof.
  destruct v as [y|y|w]; simpl.
  - intros H; inversion H. apply repeat_length.
  - intros H; inversion H. apply repeat_length.
  - destruct (Nat.eqb_spec (length w) k) as [E|E].
    + intros H; inversion H; subst; trivial.
    + destruct w as [|y [|y' w]]; try discriminate.
      intros H; inversion H. apply repeat_length.
Qed.

Lemma entries_map g w k :
  entries (Vector (map g w)) k = option_map (map g) (entries (Vector w) k).
Proof.
  simpl. rewrite length_map. destruct (Nat.eqb (length w) k); trivial.
  destruct w as [|y [|y' w]]; simpl; trivial. now rewrite map_repeat.
Qed.

(** The comparison [U < C] of [k] thresholds that yields [k] answers
    compares each threshold with the entry of [C] laid over it. *)
Lemma broadcast_ltb_entries U C mask k :
  broadcast PrimFloat.ltb U C = Returns mask ->
  length U = k -> length mask = k ->
  exists c, entries (Vector C) k = Some c /\ mask = zip_with PrimFloat.ltb U c.
Proof.
  unfold broadcast. intros H HU Hm. simpl.
  destruct (Nat.eqb_spec (length U) (length C)) as [E|E].
  - inversion H; subst mask. exists C. split; trivial.
    assert (Hk : (length C =? k)%nat = true) by (apply Nat.eqb_eq; congruence).
    now rewrite Hk.
  - assert (Hk : (length C =? k)%nat = false) by (apply Nat.eqb_neq; congruence).
    rewrite Hk.
    destruct C as [|y [|y' C]].
    + destruct U as [|x [|x' U]]; try discriminate.
      inversion H; subst mask. simpl in HU, Hm. congruence.
    + assert (H' : mask = map (fun x => PrimFloat.ltb x y) U)
        by (destruct U as [|x [|x' U]]; now inversion H).
      subst mask. exists (repeat y k). split; trivial.
      rewrite <- HU. now rewrite zip_with_repeat_r.
    + destruct U as [|x [|x' U]]; try discriminate.
      inversion H; subst mask. simpl in HU, Hm. subst k.
      rewrite !length_map in Hm. simpl in Hm. lia.
Qed.

Lemma broadcast_div_entries v w C k c :
  broadcast PrimFloat.div v w = Returns C ->
  entries (Vector C) k = Some c ->
  exists dv dw,
    entries (Vector v) k = Some dv /\ entries (Vector w) k = Some dw
    /\ c = zip_with PrimFloat.div dv dw.
Proof.
  unfold broadcast. intros H Hc.
  destruct (Nat.eqb_spec (length v) (length w)) as [E|E].
  - inversion H; subst C; clear H. simpl in *.
    rewrite (zip_with_length _ _ _ E) in Hc.
    rewrite <- E.
    destruct (Nat.eqb (length v) k).
    + inversion Hc. eauto.
    + destruct v as [|x [|x' v]], w as [|y [|y' w]]; simpl in *; try discriminate.
      inversion Hc. exists (repeat x k), (repeat y k). repeat split.
      now rewrite zip_with_repeat.
  - destruct w as [|y [|y' w]].
    + destruct v as [|x [|x' v]]; try discriminate.
      inversion H; subst C; clear H. simpl in Hc.
      destruct k; [inversion Hc; subst c|discriminate].
      exists [], []. repeat split.
    + assert (H' : C = map (fun x => PrimFloat.div x y) v)
        by (destruct v as [|x [|x' v]]; now inversion H).
      subst C; clear H. rewrite entries_map in Hc.
      destruct (entries (Vector v) k) as [dv|] eqn:Hv; [|discriminate].
      inversion Hc; subst c. exists dv, (repeat y k). repeat split.
      * clear. now destruct k as [|[|k]].
      * rewrite <- (entries_length _ _ _ Hv). now rewrite zip_with_repeat_r.
    + destruct v as [|x [|x' v]]; try discriminate.
      assert (H' : C = map (PrimFloat.div x) (y :: y' :: w)) by now inversion H.
      subst C; clear H. rewrite entries_map in Hc.
      destruct (entries (Vector (y :: y' :: w)) k) as [dw|] eqn:Hw; [|discriminate].
      inversion Hc; subst c. exists (repeat x k), dw. repeat split.
      * clear. now destruct k as [|[|k]].
      * rewrite <- (entries_length _ _ _ Hw). now rewrite zip_with_repeat_l.
Qed.

Lemma np_less_number U c k :
  length U = k ->
  map (fun u => PrimFloat.ltb u c) U = zip_with PrimFloat.ltb U (repeat c k).
Proof. intros <-. now rewrite zip_with_repeat_r. Qed.

(** A pass whose mask fits its [k] thresholds compared each threshold with
    the ratio of its candidate. *)
Lemma mask_of_ratios value lmax C U mask k :
  np_divide value lmax = Returns C ->
  np_less U C = Returns mask ->
  length U = k -> length mask = k ->
  exists ratios,
    ratios_of value lmax k = Some ratios
    /\ length ratios = k
    /\ mask = zip_with PrimFloat.ltb U ratios.
Proof.
  intros Hdiv Hless HU Hm.
  assert (Hnum : forall x y,
             map (fun u => PrimFloat.ltb u (PrimFloat.div x y)) U
             = zip_with PrimFloat.ltb U
                 (zip_with PrimFloat.div (repeat x k) (repeat y k))
             /\ length (zip_with PrimFloat.div (repeat x k) (repeat y k)) = k).
  { intros x y. rewrite zip_with_repeat, repeat_length. split; trivial.
    now apply np_less_number. }
  unfold ratios_of.
  destruct value as [x|x|v], lmax as [y|y|w]; simpl in Hdiv;
    try (destruct (PrimFloat.is_zero y) eqn:Hz; [discriminate|]);
    try (inversion Hdiv; subst C; clear Hdiv; simpl in Hless;
         inversion Hless; subst mask; clear Hless;
         cbn [entries]; rewrite ?Hz;
         destruct (Hnum x y) as [H1 H2]; eauto; fail).
  - (* float / vector *)
    inversion Hdiv; subst C; clear Hdiv. simpl in Hless.
    destruct (broadcast_ltb_entries _ _ _ k Hless HU Hm) as (c & Hc & ->).
    rewrite entries_map in Hc.
    destruct (entries (Vector w) k) as [dw|] eqn:Hw; [|discriminate].
    inversion Hc; subst c. cbn [entries].
    pose proof (entries_length _ _ _ Hw) as Hl.
    rewrite <- Hl, zip_with_repeat_l. exists (map (PrimFloat.div x) dw).
    rewrite length_map. auto.
  - inversion Hdiv; subst C; clear Hdiv. simpl in Hless.
    destruct (broadcast_ltb_entries _ _ _ k Hless HU Hm) as (c & Hc & ->).
    rewrite entries_map in Hc.
    destruct (entries (Vector w) k) as [dw|] eqn:Hw; [|discriminate].
    inversion Hc; subst c. cbn [entries].
    pose proof (entries_length _ _ _ Hw) as Hl.
    rewrite <- Hl, zip_with_repeat_l. exists (map (PrimFloat.div x) dw).
    rewrite length_map. auto.
  - inversion Hdiv; subst C; clear Hdiv. simpl in Hless.
    destruct (broadcast_ltb_entries _ _ _ k Hless HU Hm) as (c & Hc & ->).
    rewrite entries_map in Hc.
    destruct (entries (Vector v) k) as [dv|] eqn:Hv; [|discriminate].
    inversion Hc; subst c. cbn [entries].
    pose proof (entries_length _ _ _ Hv) as Hl.
    rewrite <- Hl, zip_with_repeat_r. exists (map (fun x => PrimFloat.div x y) dv).
    rewrite length_map. auto.
  - inversion Hdiv; subst C; clear Hdiv. simpl in Hless.
    destruct (broadcast_ltb_entries _ _ _ k Hless HU Hm) as (c & Hc & ->).
    rewrite entries_map in Hc.
    destruct (entries (Vector v) k) as [dv|] eqn:Hv; [|discriminate].
    inversion Hc; subst c. cbn [entries].
    pose proof (entries_length _ _ _ Hv) as Hl.
    rewrite <- Hl, zip_with_repeat_r. exists (map (fun x => PrimFloat.div x y) dv).
    rewrite length_map. auto.
  - destruct (broadcast PrimFloat.div v w) as [r|e|] eqn:Hb; try discriminate.
    simpl in Hdiv. inversion Hdiv; subst C; clear Hdiv. simpl in Hless.
    destruct (broadcast_ltb_entries _ _ _ k Hless HU Hm) as (c & Hc & ->).
    destruct (broadcast_div_entries _ _ _ _ _ Hb Hc) as (dv & dw & Hv & Hw & ->).
    rewrite Hv, Hw. exists (zip_with PrimFloat.div dv dw). repeat split.
    rewrite zip_with_length; [exact (entries_length _ _ _ Hv)|].
    now rewrite (entries_length _ _ _ Hv), (entries_length _ _ _ Hw).
Qed.

End RatioFacts.

Section PassFacts.
Context {RS : RandomSource} {X A : Type}.
Variable xs : list X.
Variable candidates : M (option (ndarray A)).
Variable criteria : ndarray A -> outcome npvalue.
Variable blocksize : Z.
Variable ratio_of : list (list A) -> list float -> Prop.

Hypothesis candidates_shape :
  forall w rows w', candidates w = (Returns (Some (Arr2 rows)), w') ->
                    block_of anything xs (Z.to_nat blocksize) rows.
Hypothesis criteria_ratio :
  forall pts U C mask,
    length pts = Z.to_nat blocksize -> length U = Z.to_nat blocksize ->
    criteria (Arr2 pts) = Returns C -> np_less U C = Returns mask ->
    length mask = Z.to_nat blocksize ->
    exists ratios,
      ratio_of pts ratios /\ length ratios = Z.to_nat blocksize
      /\ mask = zip_with PrimFloat.ltb U ratios.

(** A pass that returns has drawn a block and its thresholds, computed the
    ratios of the block, and appended the candidates whose threshold is
    strictly below their ratio. *)
Lemma loop_body_pass Thinned w Thinned' w' :
  accumulator anything xs Thinned ->
  loop_body candidates criteria blocksize Thinned w = (Returns Thinned', w') ->
  exists p,
    pass_from candidates ratio_of blocksize w p w'
    /\ accumulator anything xs Thinned'
    /\ accepted_points Thinned' = accepted_points Thinned ++ accepted_of p.
Proof.
  intros Hacc H.
  destruct (loop_body_step xs candidates criteria blocksize candidates_shape
              _ _ _ _ Hacc H)
    as (rows & w1 & U & C & mask & Hc & HU & HC & Hm & Hl & Hacc' & Hpts).
  pose proof (candidates_shape _ _ _ Hc) as Hb.
  destruct (block_columns _ _ _ _ Hb) as [Hk _].
  pose proof (np_random_uniform_returns _ _ _ _ _ _ HU) as [_ HlU].
  destruct (criteria_ratio _ _ _ _ Hk HlU HC Hm Hl) as (ratios & Hr & Hlr & ->).
  exists {| pass_block := columns rows; pass_thresholds := U; pass_ratios := ratios |}.
  split; [|split; trivial].
  - exists rows, w1. simpl. repeat split; trivial.
    now apply np_random_uniform_draws.
  - rewrite Hpts. unfold accepted_of. simpl. now rewrite accepted_compress.
Qed.

Lemma while_loop_passes n fuel : forall Thinned w Thinned' w',
  accumulator anything xs Thinned ->
  while_loop candidates criteria n blocksize fuel Thinned w = (Returns Thinned', w') ->
  exists ps,
    passes candidates ratio_of blocksize w ps w'
    /\ (length ps <= fuel)%nat
    /\ accepted_points Thinned' = accepted_points Thinned ++ flat_map accepted_of ps.
Proof.
  induction fuel as [|fuel IH]; intros T w T' w' Hacc H; cbn [while_loop] in H;
    destruct (np_len (np_T T) <? n); try discriminate;
    try (inversion H; subst; exists []; simpl; rewrite app_nil_r;
         repeat split; trivial; lia).
  apply bind_returns in H as (T1 & w1 & Hb & H).
  destruct (loop_body_pass _ _ _ _ Hacc Hb) as (p & Hp & Hacc1 & Hpts).
  destruct (IH _ _ _ _ Hacc1 H) as (ps & Hps & Hlen & Hall).
  exists (p :: ps). simpl. repeat split; eauto; try lia.
  now rewrite Hall, Hpts, app_assoc.
Qed.

End PassFacts.

Section PassInstances.
Context {RS : RandomSource}.

Lemma criteria_callable_ratio f lmax k pts U C mask :
  length pts = k -> length U = k ->
  criteria_callable f lmax (Arr2 pts) = Returns C ->
  np_less U C = Returns mask -> length mask = k ->
  exists ratios,
    ratio_callable f lmax pts ratios /\ length ratios = k
    /\ mask = zip_with PrimFloat.ltb U ratios.
Proof.
  intros Hk HU HC Hm Hl. unfold criteria_callable in HC.
  apply obind_returns in HC as (value & Hv & Hdiv).
  destruct (mask_of_ratios _ _ _ _ _ k Hdiv Hm HU Hl) as (ratios & Hr & Hlr & ->).
  exists ratios. repeat split; trivial. exists value. now rewrite Hk.
Qed.

Lemma criteria_array_ratio a lmax k pts U C mask :
  length pts = k -> length U = k ->
  criteria_array a lmax (Arr2 pts) = Returns C ->
  np_less U C = Returns mask -> length mask = k ->
  exists ratios,
    ratio_array a lmax pts ratios /\ length ratios = k
    /\ mask = zip_with PrimFloat.ltb U ratios.
Proof.
  intros Hk HU HC Hm Hl.
  apply criteria_array_ratios in HC as (ratios & -> & HR).
  pose proof (Forall2_length HR) as Hlr.
  rewrite np_less_run in Hm by congruence. inversion Hm; subst mask.
  exists ratios. repeat split; trivial. congruence.
Qed.

End PassInstances.

(** * The loop, pass by pass: what is accepted and what is returned *)

Section PassClaims.
Context {RS : RandomSource} {OPT : Optimizer}.


(** C2. Every pass through the loop that completes, whatever the density
    and [lmax]: it has drawn a block of [blocksize] candidates and then
    [blocksize] thresholds from [uniform(0, 1)], by successive draws from
    the state the block left; each candidate has a ratio, which is the
    entry for it of what the density returned on the block divided by
    [lmax] (callable density), respectively the weight at its index tuple
    divided by [lmax] (weight array); and [Thinned] afterwards holds the
    points it held, followed by exactly the candidates of the block whose
    threshold is strictly below their ratio, in the order in which they
    were generated.  Such a pass does complete when the block can be drawn
    and the density is evaluated point by point (with a scalar [lmax]) or
    the weight array is well formed. *)
Theorem loop_body_accepts_below_ratio :
  (forall f lmax bounds blocksize Thinned w Thinned' w',
      accumulator anything bounds Thinned ->
      loop_body (candidates_callable bounds blocksize) (criteria_callable f lmax)
                blocksize Thinned w = (Returns Thinned', w') ->
      exists rows w1 U value ratios,
        candidates_callable bounds blocksize w = (Returns (Some (Arr2 rows)), w1)
        /\ (U, random_state w')
           = draws (next_uniform 0%float 1%float) (Z.to_nat blocksize)
                   (random_state w1)
        /\ length (columns rows) = Z.to_nat blocksize
        /\ length U = Z.to_nat blocksize
        /\ length ratios = Z.to_nat blocksize
        /\ f (ArgsArray (Arr2 (columns rows)) []) = Returns value
        /\ ratios_of value lmax (length (columns rows)) = Some ratios
        /\ accepted_points Thinned'
           = accepted_points Thinned ++ accepted U ratios (columns rows))
  /\ (forall a lmax blocksize Thinned w Thinned' w',
         accumulator anything (shape a) Thinned ->
         loop_body (candidates_array a blocksize) (criteria_array a lmax)
                   blocksize Thinned w = (Returns Thinned', w') ->
         exists rows w1 U ratios,
           candidates_array a blocksize w = (Returns (Some (Arr2 rows)), w1)
           /\ (U, random_state w')
              = draws (next_uniform 0%float 1%float) (Z.to_nat blocksize)
                      (random_state w1)
           /\ length (columns rows) = Z.to_nat blocksize
           /\ length U = Z.to_nat blocksize
           /\ Forall2 (fun p r => exists x, getitem a p = Returns x
                                            /\ r = PrimFloat.div x lmax)
                      (columns rows) ratios
           /\ accepted_points Thinned'
              = accepted_points Thinned ++ accepted U ratios (columns rows))
  /\ (forall f g c bounds blocksize Thinned w,
         vectorized f g ->
         (2 <= length bounds)%nat -> Forall finite_range bounds ->
         buildable blocksize ->
         accumulator anything bounds Thinned ->
         exists rows w1 U w2 Thinned',
           candidates_callable bounds blocksize w = (Returns (Some (Arr2 rows)), w1)
           /\ np_random_uniform 0%float 1%float blocksize w1 = (Returns U, w2)
           /\ length (columns rows) = Z.to_nat blocksize
           /\ length U = Z.to_nat blocksize
           /\ loop_body (candidates_callable bounds blocksize)
                        (criteria_callable f (Scalar c)) blocksize Thinned w
              = (Returns Thinned', w2)
           /\ accepted_points Thinned'
              = accepted_points Thinned
                ++ accepted U (map (fun p => PrimFloat.div (g p) c) (columns rows))
                            (columns rows))
  /\ (forall a lmax blocksize Thinned w,
         well_formed a ->
         (2 <= length (shape a))%nat -> Forall randint_in_range (shape a) ->
         buildable blocksize ->
         accumulator index_within (shape a) Thinned ->
         exists rows w1 U w2 ratios Thinned',
           candidates_array a blocksize w = (Returns (Some (Arr2 rows)), w1)
           /\ np_random_uniform 0%float 1%float blocksize w1 = (Returns U, w2)
           /\ length (columns rows) = Z.to_nat blocksize
           /\ length U = Z.to_nat blocksize
           /\ Forall2 (fun p r => exists x, getitem a p = Returns x
                                            /\ r = PrimFloat.div x lmax)
                      (columns rows) ratios
           /\ loop_body (candidates_array a blocksize) (criteria_array a lmax)
                        blocksize Thinned w
              = (Returns Thinned', w2)
           /\ accepted_points Thinned'
              = accepted_points Thinned ++ accepted U ratios (columns rows)).
Proof.
  split; [|split; [|split]].
  - intros f lmax bounds blocksize Thinned w Thinned' w' Hacc H.
    destruct (loop_body_pass bounds _ _ blocksize (ratio_callable f lmax)
                (candidates_callable_shape bounds blocksize)
                (criteria_callable_ratio f lmax (Z.to_nat blocksize))
                _ _ _ _ Hacc H)
      as ([pts U ratios]
          & (rows & w1 & Hc & Hpts & _ & HU & Hk & HlU & Hlr & v & Hv & Hr)
          & _ & Happ).
    simpl in *. subst pts.
    exists rows, w1, U, v, ratios. repeat split; trivial.
  - intros a lmax blocksize Thinned w Thinned' w' Hacc H.
    destruct (loop_body_pass (shape a) _ _ blocksize (ratio_array a lmax)
                (candidates_array_shape a blocksize)
                (criteria_array_ratio a lmax (Z.to_nat blocksize))
                _ _ _ _ Hacc H)
      as ([pts U ratios] & (rows & w1 & Hc & Hpts & _ & HU & Hk & HlU & Hlr & Hr)
          & _ & Happ).
    simpl in *. subst pts.
    exists rows, w1, U, ratios. repeat split; trivial.
  - intros f g c bounds blocksize Thinned w Hf Hrank Hfin [Hb _] Hacc.
    destruct (loop_body_total anything bounds
                (candidates_callable bounds blocksize)
                (criteria_callable f (Scalar c)) blocksize Hb
                (fun w0 => candidates_callable_total bounds blocksize w0 Hrank Hfin Hb)
                (fun rows Hrows =>
                   criteria_callable_total f g c bounds _ rows Hf Hrows)
                Thinned w Hacc)
      as (rows & w1 & U & w2 & ratios & T & Hc & HU & HC & HlU & Hlr & Hbody & HaccT & Hpts).
    rewrite (criteria_callable_run f g c _ Hf) in HC. inversion HC; subst ratios.
    rewrite length_map in Hlr.
    destruct (block_columns _ _ _ _ (candidates_callable_shape _ _ _ _ _ Hc)) as [Hk _].
    exists rows, w1, U, w2, T. repeat split; trivial; congruence.
  - intros a lmax blocksize Thinned w Hwf Hrank Hrange [Hb _] Hacc.
    destruct (loop_body_total index_within (shape a)
                (candidates_array a blocksize)
                (criteria_array a lmax) blocksize Hb
                (fun w0 => candidates_array_total a blocksize w0 Hrank Hrange Hb)
                (fun rows Hrows => criteria_array_total a lmax _ rows Hwf Hrows)
                Thinned w Hacc)
      as (rows & w1 & U & w2 & ratios & T & Hc & HU & HC & HlU & Hlr & Hbody & HaccT & Hpts).
    destruct (block_columns _ _ _ _ (candidates_array_shape _ _ _ _ _ Hc)) as [Hk _].
    apply criteria_array_ratios in HC as (ratios' & E & HR).
    inversion E; subst ratios'.
    exists rows, w1, U, w2, ratios, T. repeat split; trivial; congruence.
Qed.

(** C1. A call with positive [n] on which the rejection loop terminates:
    [sample] returns a matrix of exactly [n] rows.  The rows are the first
    [n], in acceptance order, of the points accepted by the passes the
    loop made one after the other from the world the probe left: each is a
    candidate of its block whose threshold was strictly below its ratio.
    For a callable density each row has one coordinate per bound pair,
    within that pair, and for a weight array each row is an index tuple
    with one integer per axis, within that axis.  (Such a call has at least
    two dimensions and a positive [blocksize]: otherwise the loop does not
    terminate.) *)
Theorem sample_returns_n_points self n bounds blocksize fuel w w1 :
  0 < n ->
  diagnostic_probe self (Some bounds) w = (Returns tt, w1) ->
  (forall f lmax Thinned w2,
      density self = DCallable f ->
      Forall uniform_in_bounds bounds ->
      lmax_callable self f bounds = Returns lmax ->
      while_loop (candidates_callable bounds blocksize) (criteria_callable f lmax)
                 n blocksize fuel (Arr1 []) w1 = (Returns Thinned, w2) ->
      exists points ps,
        sample self (Some n) (Some bounds) "thinning" blocksize fuel w
        = (Returns (RFloats (Arr2 points)), w2)
        /\ length points = Z.to_nat n
        /\ passes (candidates_callable bounds blocksize) (ratio_callable f lmax)
                  blocksize w1 ps w2
        /\ accepted_points Thinned = flat_map accepted_of ps
        /\ points = firstn (Z.to_nat n) (flat_map accepted_of ps)
        /\ Forall (Forall2 within bounds) points)
  /\ (forall a lmax Thinned w2,
         density self = DArray a ->
         Forall randint_in_range (shape a) ->
         np_amax (data a) = Returns lmax ->
         while_loop (candidates_array a blocksize) (criteria_array a lmax)
                    n blocksize fuel (Arr1 []) w1 = (Returns Thinned, w2) ->
         exists points ps,
           sample self (Some n) (Some bounds) "thinning" blocksize fuel w
           = (Returns (RInts (Arr2 points)), w2)
           /\ length points = Z.to_nat n
           /\ passes (candidates_array a blocksize) (ratio_array a lmax)
                     blocksize w1 ps w2
           /\ accepted_points Thinned = flat_map accepted_of ps
           /\ points = firstn (Z.to_nat n) (flat_map accepted_of ps)
           /\ Forall (Forall2 index_within (shape a)) points).
Proof.
  intros Hn Hp. split.
  - intros f lmax Thinned w2 Hd Hcontract Hl Hloop.
    destruct (thin_of_loop within bounds (candidates_callable bounds blocksize)
                (criteria_callable f lmax) n blocksize
                (fun w0 rows w' => candidates_callable_block bounds blocksize w0 rows w'
                                     Hcontract)
                fuel w1 Thinned w2 Hn Hloop) as (Hthin & Hcount & Hpts).
    destruct (while_loop_passes bounds _ _ blocksize (ratio_callable f lmax)
                (candidates_callable_shape bounds blocksize)
                (criteria_callable_ratio f lmax (Z.to_nat blocksize))
                n fuel _ _ _ _ (acc_empty _ _) Hloop) as (ps & Hps & _ & Hall).
    simpl in Hall.
    exists (firstn (Z.to_nat n) (accepted_points Thinned)), ps. repeat split; trivial.
    + rewrite (sample_callable self f n bounds blocksize fuel w w1 lmax Hd Hp Hl).
      unfold bind at 1. now rewrite Hthin.
    + rewrite length_firstn. lia.
    + now rewrite Hall.
    + now apply firstn_Forall.
  - intros a lmax Thinned w2 Hd Hcontract Hl Hloop.
    destruct (thin_of_loop index_within (shape a) (candidates_array a blocksize)
                (criteria_array a lmax) n blocksize
                (fun w0 rows w' => candidates_array_block a blocksize w0 rows w'
                                     Hcontract)
                fuel w1 Thinned w2 Hn Hloop) as (Hthin & Hcount & Hpts).
    destruct (while_loop_passes (shape a) _ _ blocksize (ratio_array a lmax)
                (candidates_array_shape a blocksize)
                (criteria_array_ratio a lmax (Z.to_nat blocksize))
                n fuel _ _ _ _ (acc_empty _ _) Hloop) as (ps & Hps & _ & Hall).
    simpl in Hall.
    exists (firstn (Z.to_nat n) (accepted_points Thinned)), ps. repeat split; trivial.
    + rewrite (sample_array self a n bounds blocksize fuel w lmax Hd Hl).
      rewrite (probe_not_callable self (Some bounds) w) in Hp by now rewrite Hd.
      inversion Hp; subst w1.
      unfold bind at 1. now rewrite Hthin.
    + rewrite length_firstn. lia.
    + now rewrite Hall.
    + now apply firstn_Forall.
Qed.



End PassClaims.

(** * The further properties at concrete calls *)

Lemma nonpositive_n_raises_IndexError_witness :
  demo_sample (Demo.process (DArray Demo.grid)) (Some 0) (Some Demo.unit_square)
              "thinning" 4 2 Demo.w0
  = (Raises IndexError, @Build_world Demo.counter_source 0%nat [PrintStr "a"])
  /\ demo_sample (Demo.process (DCallable Demo.ramp)) (Some (-2))
                 (Some Demo.unit_square) "thinning" 4 2 Demo.w0
     = (Raises IndexError,
        @Build_world Demo.counter_source 0%nat
          [PrintStr "a"; PrintBounds Demo.unit_square]).
Proof.
  split.
  - apply (nonpositive_n_raises_IndexError (RS := Demo.counter_source)
             (OPT := Demo.start_optimizer)).
    + lia.
    + reflexivity.
    + discriminate.
  - apply (nonpositive_n_raises_IndexError (RS := Demo.counter_source)
             (OPT := Demo.start_optimizer)).
    + lia.
    + reflexivity.
    + eexists. reflexivity.
Defined.

Lemma negative_blocksize_raises_ValueError_witness :
  demo_sample (Demo.process (DCallable Demo.ramp)) (Some 3) (Some Demo.unit_square)
              "thinning" (-1) 1 Demo.w0
  = (Raises ValueError,
     @Build_world Demo.counter_source 0%nat
       [PrintStr "a"; PrintBounds Demo.unit_square])
  /\ demo_sample (Demo.process (DArray Demo.grid)) (Some 3) (Some Demo.unit_square)
                 "thinning" (-1) 1 Demo.w0
     = (Raises ValueError, @Build_world Demo.counter_source 0%nat [PrintStr "a"]).
Proof.
  split.
  - apply (proj1 (negative_blocksize_raises_ValueError (RS := Demo.counter_source)
                    (OPT := Demo.start_optimizer)
                    (Demo.process (DCallable Demo.ramp)) 3 Demo.unit_square (-1)
                    0%nat Demo.w0 _ ltac:(lia) ltac:(lia) eq_refl
                    (ex_intro _ _ eq_refl))
                 Demo.ramp (0, 1)%float [(0, 1)%float]); reflexivity.
  - apply (proj2 (negative_blocksize_raises_ValueError (RS := Demo.counter_source)
                    (OPT := Demo.start_optimizer)
                    (Demo.process (DArray Demo.grid)) 3 Demo.unit_square (-1)
                    0%nat Demo.w0 _ ltac:(lia) ltac:(lia) eq_refl
                    ltac:(discriminate))
                 Demo.grid); [reflexivity|discriminate].
Defined.

Lemma empty_weights_raise_ValueError_witness :
  demo_sample (Demo.process (DArray {| shape := [0; 3]%nat; data := [] |})) (Some 3)
              (Some Demo.unit_square) "thinning" 4 2 Demo.w0
  = (Raises ValueError, @Build_world Demo.counter_source 0%nat [PrintStr "a"])
  /\ demo_sample (Demo.process (DList [])) (Some 3)
                 (Some Demo.unit_square) "thinning" 4 2 Demo.w0
     = (Raises ValueError, @Build_world Demo.counter_source 0%nat [PrintStr "a"]).
Proof.
  split.
  - apply (empty_weights_raise_ValueError (RS := Demo.counter_source)
             (OPT := Demo.start_optimizer) _ [0; 3]%nat).
    left. reflexivity.
  - apply (empty_weights_raise_ValueError (RS := Demo.counter_source)
             (OPT := Demo.start_optimizer) _ []).
    right. left. reflexivity.
Defined.

Lemma no_dimension_raises_UnboundLocalError_witness :
  demo_sample (Demo.process (DArray {| shape := []; data := [5]%float |})) (Some 3)
              (Some Demo.unit_square) "thinning" 4 1 Demo.w0
  = (Raises UnboundLocalError, @Build_world Demo.counter_source 0%nat [PrintStr "a"]).
Proof.
  apply (no_dimension_raises_UnboundLocalError (RS := Demo.counter_source)
           (OPT := Demo.start_optimizer)).
  - lia.
  - reflexivity.
  - discriminate.
  - eexists. split; reflexivity.
Defined.

Lemma infinite_range_raises_OverflowError_witness :
  demo_sample (Demo.process (DCallable Demo.ramp)) (Some 3)
              (Some [(0, infinity); (0, 1)]%float) "thinning" 4 1 Demo.w0
  = (Raises OverflowError,
     @Build_world Demo.counter_source 0%nat
       [PrintStr "a"; PrintBounds [(0, infinity); (0, 1)]%float]).
Proof.
  apply (infinite_range_raises_OverflowError (RS := Demo.counter_source)
           (OPT := Demo.start_optimizer) _ Demo.ramp).
  - lia.
  - reflexivity.
  - reflexivity.
  - eexists. reflexivity.
  - reflexivity.
Defined.

Lemma keyword_arguments_break_callable_density_witness :
  demo_sample {| density := DCallable Demo.ramp;
                 density_kwargs := [("scale"%string, 2%float)] |}
              (Some 3) (Some Demo.unit_square) "thinning" 4 2 Demo.w0
  = (Raises TypeError,
     @Build_world Demo.counter_source 0%nat
       [PrintStr "a"; PrintBounds Demo.unit_square]).
Proof.
  apply (keyword_arguments_break_callable_density (RS := Demo.counter_source)
           (OPT := Demo.start_optimizer) _ Demo.ramp 3 Demo.unit_square 4 2%nat
           Demo.w0 _ [0.5; 0.5]%float).
  - reflexivity.
  - discriminate.
  - intros [v|rows] [|e extra] Hne; try congruence; reflexivity.
  - reflexivity.
  - reflexivity.
Defined.

Lemma zero_blocksize_never_returns_witness :
  fst (demo_sample (Demo.process (DCallable Demo.ramp)) (Some 3)
                   (Some Demo.unit_square) "thinning" 0 5 Demo.w0)
  = Unfinished
  /\ fst (demo_sample (Demo.process (DArray Demo.grid)) (Some 3)
                      (Some Demo.unit_square) "thinning" 0 5 Demo.w0)
     = Unfinished.
Proof.
  split.
  - eapply (proj1 (zero_blocksize_never_returns (RS := Demo.counter_source)
                     (OPT := Demo.start_optimizer)
                     (Demo.process (DCallable Demo.ramp)) 3 Demo.unit_square 5
                     Demo.w0 ltac:(lia))
                  Demo.ramp Demo.first_coordinate 0.5%float).
    + reflexivity.
    + exact demo_ramp_vectorized.
    + reflexivity.
    + reflexivity.
    + simpl. lia.
    + exact demo_finite_square.
  - apply (proj2 (zero_blocksize_never_returns (RS := Demo.counter_source)
                    (OPT := Demo.start_optimizer)
                    (Demo.process (DArray Demo.grid)) 3 Demo.unit_square 5
                    Demo.w0 ltac:(lia))
                 Demo.grid).
    + reflexivity.
    + reflexivity.
    + simpl. lia.
    + exact demo_grid_in_range.
Defined.

Lemma returned_sample_made_enough_passes_witness :
  (exists r w',
      demo_sample (Demo.process (DArray Demo.grid)) (Some 3) (Some Demo.unit_square)
                  "thinning" 4 2 Demo.w0 = (Returns r, w'))
  /\ 0 < 3 /\ 0 < 4 /\ 3 <= Z.of_nat 2 * 4.
Proof.
  split.
  - eexists. eexists. reflexivity.
  - eapply (returned_sample_made_enough_passes (RS := Demo.counter_source)
              (OPT := Demo.start_optimizer)
              (Demo.process (DArray Demo.grid)) 3 Demo.unit_square 4 2 Demo.w0).
    reflexivity.
Defined.

Lemma loop_ends_with_less_than_a_block_to_spare_witness :
  (exists Thinned w',
      while_loop (RS := Demo.counter_source)
                 (candidates_callable Demo.unit_square 4)
                 (criteria_callable Demo.ramp (Scalar 0.5%float))
                 3 4 2 (Arr1 []) Demo.w0 = (Returns Thinned, w')
      /\ 3 <= Z.of_nat (length (accepted_points Thinned)) < 3 + 4)
  /\ (exists Thinned w',
         while_loop (RS := Demo.counter_source)
                    (candidates_array Demo.grid 4) (criteria_array Demo.grid 3%float)
                    3 4 2 (Arr1 []) Demo.w0 = (Returns Thinned, w')
         /\ 3 <= Z.of_nat (length (accepted_points Thinned)) < 3 + 4).
Proof.
  split.
  - eexists. eexists. split; [reflexivity|].
    eapply (proj1 (loop_ends_with_less_than_a_block_to_spare
                     (RS := Demo.counter_source) 3 4 2 ltac:(lia))
                  Demo.unit_square Demo.ramp (Scalar 0.5%float) Demo.w0).
    reflexivity.
  - eexists. eexists. split; [reflexivity|].
    eapply (proj2 (loop_ends_with_less_than_a_block_to_spare
                     (RS := Demo.counter_source) 3 4 2 ltac:(lia))
                  Demo.grid 3%float Demo.w0).
    reflexivity.
Defined.

Lemma zero_weight_never_returned_witness :
  (exists points w',
      demo_sample (Demo.process (DArray Demo.strip)) (Some 3) (Some Demo.unit_square)
                  "thinning" 4 2 Demo.w0 = (Returns (RInts (Arr2 points)), w')
      /\ Forall (fun p => exists x, getitem Demo.strip p = Returns x /\ nonzero_weight x)
                points)
  /\ (exists points w',
         demo_sample (Demo.process (DCallable Demo.ramp)) (Some 5)
                     (Some Demo.unit_square) "thinning" 4 2 Demo.w0
         = (Returns (RFloats (Arr2 points)), w')
         /\ Forall (fun p => nonzero_weight (Demo.first_coordinate p)) points).
Proof.
  split.
  - eexists. eexists. split; [reflexivity|].
    eapply (proj1 (zero_weight_never_returned (RS := Demo.counter_source)
                     (OPT := Demo.start_optimizer)
                     (Demo.process (DArray Demo.strip)) 3 Demo.unit_square 4 2 Demo.w0
                     (Forall_inv demo_uniform_in_bounds))
                  Demo.strip).
    + reflexivity.
    + reflexivity.
  - eexists. eexists. split; [reflexivity|].
    eapply (proj2 (zero_weight_never_returned (RS := Demo.counter_source)
                     (OPT := Demo.start_optimizer)
                     (Demo.process (DCallable Demo.ramp)) 5 Demo.unit_square 4 2
                     Demo.w0 (Forall_inv demo_uniform_in_bounds))
                  Demo.ramp Demo.first_coordinate 0.5%float).
    + reflexivity.
    + exact demo_ramp_vectorized.
    + reflexivity.
    + reflexivity.
Defined.

Lemma smaller_sample_is_prefix_witness :
  exists r1 w1 r2 w2,
    demo_sample (Demo.process (DCallable Demo.ramp)) (Some 3) (Some Demo.unit_square)
                "thinning" 4 2 Demo.w0 = (Returns r1, w1)
    /\ demo_sample (Demo.process (DCallable Demo.ramp)) (Some 5)
                   (Some Demo.unit_square) "thinning" 4 2 Demo.w0 = (Returns r2, w2)
    /\ r1 = first_rows (Z.to_nat 3) r2.
Proof.
  do 4 eexists. split; [reflexivity|]. split; [reflexivity|].
  eapply (smaller_sample_is_prefix (RS := Demo.counter_source)
            (OPT := Demo.start_optimizer)
            (Demo.process (DCallable Demo.ramp)) 3 5 Demo.unit_square 4 2 2 Demo.w0).
  - lia.
  - reflexivity.
  - reflexivity.
Defined.


(** * The loop, pass by pass, at concrete calls *)

Lemma sample_returns_n_points_witness :
  (exists points ps w2,
      demo_sample (Demo.process (DCallable Demo.ramp)) (Some 5)
                  (Some Demo.unit_square) "thinning" 4 2 Demo.w0
      = (Returns (RFloats (Arr2 points)), w2)
      /\ length points = 5%nat
      /\ passes (RS := Demo.counter_source)
                (candidates_callable Demo.unit_square 4)
                (ratio_callable Demo.ramp (Scalar 0.5%float)) 4
                (@Build_world Demo.counter_source 0%nat
                   [PrintStr "a"; PrintBounds Demo.unit_square])
                ps w2
      /\ points = firstn 5 (flat_map accepted_of ps)
      /\ Forall (Forall2 within Demo.unit_square) points)
  /\ (exists points ps w2,
         demo_sample (Demo.process (DArray Demo.strip)) (Some 3)
                     (Some Demo.unit_square) "thinning" 4 2 Demo.w0
         = (Returns (RInts (Arr2 points)), w2)
         /\ length points = 3%nat
         /\ passes (RS := Demo.counter_source)
                   (candidates_array Demo.strip 4) (ratio_array Demo.strip 3%float) 4
                   (@Build_world Demo.counter_source 0%nat [PrintStr "a"])
                   ps w2
         /\ points = firstn 3 (flat_map accepted_of ps)
         /\ Forall (Forall2 index_within (shape Demo.strip)) points).
Proof.
  split.
  - edestruct (sample_returns_n_points (RS := Demo.counter_source)
                 (OPT := Demo.start_optimizer)
                 (Demo.process (DCallable Demo.ramp)) 5 Demo.unit_square 4 2 Demo.w0)
      as [Hc _].
    + reflexivity.
    + reflexivity.
    + edestruct (Hc Demo.ramp) as (points & ps & Hs & Hl & Hps & _ & Hfirst & Hin).
      * reflexivity.
      * exact demo_uniform_in_bounds.
      * reflexivity.
      * reflexivity.
      * exists points, ps. eexists.
        split; [exact Hs|]. split; [exact Hl|]. split; [exact Hps|].
        split; [exact Hfirst|exact Hin].
  - edestruct (sample_returns_n_points (RS := Demo.counter_source)
                 (OPT := Demo.start_optimizer)
                 (Demo.process (DArray Demo.strip)) 3 Demo.unit_square 4 2 Demo.w0)
      as [_ Ha].
    + reflexivity.
    + reflexivity.
    + edestruct (Ha Demo.strip) as (points & ps & Hs & Hl & Hps & _ & Hfirst & Hin).
      * reflexivity.
      * exact demo_strip_in_range.
      * reflexivity.
      * reflexivity.
      * exists points, ps. eexists.
        split; [exact Hs|]. split; [exact Hl|]. split; [exact Hps|].
        split; [exact Hfirst|exact Hin].
Defined.

Lemma loop_body_accepts_below_ratio_witness :
  (exists Thinned' w' rows w1 U value ratios,
      loop_body (RS := Demo.counter_source) (candidates_callable Demo.unit_square 4)
                (criteria_callable Demo.ramp (Scalar 0.5%float)) 4 (Arr1 [])
                (@Build_world Demo.counter_source 12%nat [])
      = (Returns Thinned', w')
      /\ candidates_callable Demo.unit_square 4
           (@Build_world Demo.counter_source 12%nat [])
         = (Returns (Some (Arr2 rows)), w1)
      /\ (U, random_state w')
         = draws (next_uniform 0%float 1%float) (Z.to_nat 4) (random_state w1)
      /\ Demo.ramp (ArgsArray (Arr2 (columns rows)) []) = Returns value
      /\ ratios_of value (Scalar 0.5%float) (length (columns rows)) = Some ratios
      /\ accepted_points Thinned'
         = accepted_points (Arr1 (A := float) []) ++ accepted U ratios (columns rows))
  /\ (exists Thinned' w' rows w1 U ratios,
         loop_body (RS := Demo.counter_source) (candidates_array Demo.strip 4)
                   (criteria_array Demo.strip 3%float) 4 (Arr1 []) Demo.w0
         = (Returns Thinned', w')
         /\ candidates_array Demo.strip 4 Demo.w0 = (Returns (Some (Arr2 rows)), w1)
         /\ (U, random_state w')
            = draws (next_uniform 0%float 1%float) (Z.to_nat 4) (random_state w1)
         /\ Forall2 (fun p r => exists x, getitem Demo.strip p = Returns x
                                          /\ r = PrimFloat.div x 3%float)
                    (columns rows) ratios
         /\ accepted_points Thinned'
            = accepted_points (Arr1 (A := Z) []) ++ accepted U ratios (columns rows))
  /\ (exists rows w1 U w2 Thinned',
         candidates_callable (RS := Demo.counter_source) Demo.unit_square 4 Demo.w0
         = (Returns (Some (Arr2 rows)), w1)
         /\ np_random_uniform 0%float 1%float 4 w1 = (Returns U, w2)
         /\ loop_body (candidates_callable Demo.unit_square 4)
                      (criteria_callable Demo.ramp (Scalar 0.5%float)) 4 (Arr1 []) Demo.w0
            = (Returns Thinned', w2)
         /\ accepted_points Thinned'
            = accepted_points (Arr1 (A := float) [])
              ++ accepted U
                   (map (fun p => PrimFloat.div (Demo.first_coordinate p) 0.5%float)
                        (columns rows))
                   (columns rows))
  /\ (exists rows w1 U w2 ratios Thinned',
         candidates_array (RS := Demo.counter_source) Demo.strip 4 Demo.w0
         = (Returns (Some (Arr2 rows)), w1)
         /\ np_random_uniform 0%float 1%float 4 w1 = (Returns U, w2)
         /\ Forall2 (fun p r => exists x, getitem Demo.strip p = Returns x
                                          /\ r = PrimFloat.div x 3%float)
                    (columns rows) ratios
         /\ loop_body (candidates_array Demo.strip 4)
                      (criteria_array Demo.strip 3%float) 4 (Arr1 []) Demo.w0
            = (Returns Thinned', w2)
         /\ accepted_points Thinned'
            = accepted_points (Arr1 (A := Z) []) ++ accepted U ratios (columns rows)).
Proof.
  split; [|split; [|split]].
  - eexists. eexists.
    edestruct (proj1 (loop_body_accepts_below_ratio (RS := Demo.counter_source))
                     Demo.ramp (Scalar 0.5%float) Demo.unit_square 4 (Arr1 [])
                     (@Build_world Demo.counter_source 12%nat []))
      as (rows & w1 & U & value & ratios & Hc & HU & _ & _ & _ & Hv & Hr & Happ).
    + constructor.
    + reflexivity.
    + exists rows, w1, U, value, ratios.
      split; [reflexivity|]. split; [exact Hc|]. split; [exact HU|].
      split; [exact Hv|]. split; [exact Hr|exact Happ].
  - eexists. eexists.
    edestruct (proj1 (proj2 (loop_body_accepts_below_ratio (RS := Demo.counter_source)))
                     Demo.strip 3%float 4 (Arr1 []) Demo.w0)
      as (rows & w1 & U & ratios & Hc & HU & _ & _ & HR & Happ).
    + constructor.
    + reflexivity.
    + exists rows, w1, U, ratios.
      split; [reflexivity|]. split; [exact Hc|]. split; [exact HU|].
      split; [exact HR|exact Happ].
  - edestruct (proj1 (proj2 (proj2 (loop_body_accepts_below_ratio
                                      (RS := Demo.counter_source))))
                     Demo.ramp Demo.first_coordinate 0.5%float Demo.unit_square 4
                     (Arr1 []) Demo.w0)
      as (rows & w1 & U & w2 & T & Hc & HU & _ & _ & Hbody & Happ).
    + exact demo_ramp_vectorized.
    + simpl. lia.
    + exact demo_finite_square.
    + split; [lia|reflexivity].
    + constructor.
    + exists rows, w1, U, w2, T. auto.
  - edestruct (proj2 (proj2 (proj2 (loop_body_accepts_below_ratio
                                      (RS := Demo.counter_source))))
                     Demo.strip 3%float 4 (Arr1 []) Demo.w0)
      as (rows & w1 & U & w2 & ratios & T & Hc & HU & _ & _ & HR & Hbody & Happ).
    + reflexivity.
    + simpl. lia.
    + exact demo_strip_in_range.
    + split; [lia|reflexivity].
    + constructor.
    + exists rows, w1, U, w2, ratios, T. auto.
Defined.


